(** * ChronoLens: session state machine, batch pipeline, request builder and
      mask binarizer

    A shallow embedding of the orchestration logic of the ChronoLens photo
    booth ([types.ts], [services/geminiService.ts], [App.tsx],
    [components/MaskEditor.tsx]) together with the properties its design
    document states about it.

    Conventions of the embedding:
    - a JavaScript string is a [string]; its characters are read as the code
      units U+0000..U+00FF;
    - the TypeScript string enums [ImageStyle] and [Resolution] are kept as
      the strings they are at run time, because their values are read back
      from the browser's local storage and may be any text; [Era] and
      [AppState] are only ever built from their constants and are inductive;
    - an [async] function is a tree of the remote calls it awaits and the
      React state updates it performs ([Async]); [run] executes such a tree
      against a remote collaborator and records what was issued and when;
    - a JavaScript exception is a [Thrown] completion. *)

From Stdlib Require Import String Ascii List ZArith Lia Bool Arith.
From Stdlib Require Import DecimalString.
Import ListNotations.

Open Scope list_scope.
Open Scope string_scope.

(* ================================================================== *)
(** ** JavaScript values *)

Module Js.

(** [s || d] on a possibly undefined string: the empty string is falsy. *)
Definition truthy (s : string) : bool :=
  match s with EmptyString => false | String _ _ => true end.

Definition or_else (s : option string) (d : string) : string :=
  match s with
  | Some v => if truthy v then v else d
  | None => d
  end.

(** The value guarded by [if (!x) return]: [Some] exactly for a truthy [x]. *)
Definition present (s : option string) : option string :=
  match s with
  | Some v => if truthy v then Some v else None
  | None => None
  end.

(** What an expression evaluates to: a value, or a thrown [Error]. *)
Record Error : Type := mkError { message : string }.

Inductive Completion (A : Type) : Type :=
| Normal (a : A)
| Thrown (e : Error).
Arguments Normal {A} a.
Arguments Thrown {A} e.

Fixpoint strip_prefix (p s : string) : option string :=
  match p, s with
  | EmptyString, _ => Some s
  | String a p', String b s' =>
      if Ascii.eqb a b then strip_prefix p' s' else None
  | String _ _, EmptyString => None
  end.

(** ECMAScript [WhiteSpace] and [LineTerminator] below U+0100. *)
Definition isWhiteSpace (c : ascii) : bool :=
  let n := nat_of_ascii c in
  ((n =? 9) || (n =? 10) || (n =? 11) || (n =? 12) || (n =? 13)
   || (n =? 32) || (n =? 160))%nat.

Fixpoint trimStart (s : string) : string :=
  match s with
  | EmptyString => EmptyString
  | String c s' => if isWhiteSpace c then trimStart s' else s
  end.

Fixpoint rev_string (s acc : string) : string :=
  match s with
  | EmptyString => acc
  | String c s' => rev_string s' (String c acc)
  end.

Definition trimEnd (s : string) : string :=
  rev_string (trimStart (rev_string s EmptyString)) EmptyString.

Definition trim (s : string) : string := trimEnd (trimStart s).

Fixpoint allWhiteSpace (s : string) : bool :=
  match s with
  | EmptyString => true
  | String c s' => isWhiteSpace c && allWhiteSpace s'
  end.

End Js.

Import Js.

Definition nl : string := String (ascii_of_nat 10) EmptyString.

(* ================================================================== *)
(** ** types.ts *)

Inductive AppState : Type :=
| HOME | CAPTURE | PREVIEW | PROCESSING | RESTORE | MASKING | RESULT.

Inductive Era : Type :=
| VICTORIAN | ANCIENT_EGYPT | ROARING_20S | VIKING
| CYBERPUNK | MEDIEVAL | WESTERN | RENAISSANCE.

(** The string an [Era] member is at run time. *)
Definition Era_value (e : Era) : string :=
  match e with
  | VICTORIAN => "Victorian Era"
  | ANCIENT_EGYPT => "Ancient Egypt"
  | ROARING_20S => "Roaring 1920s"
  | VIKING => "Viking Age"
  | CYBERPUNK => "Cyberpunk Future"
  | MEDIEVAL => "Medieval Knight"
  | WESTERN => "Wild West"
  | RENAISSANCE => "Renaissance Painting"
  end.

Module ImageStyle.
Definition REALISTIC := "Photorealistic".
Definition CINEMATIC := "Cinematic".
Definition VINTAGE := "Vintage Film".
Definition PAINTING := "Oil Painting".
Definition CYBER := "Cyberpunk/Neon".
Definition SKETCH := "Pencil Sketch".
Definition STUDIO := "Studio Lighting".
Definition STEAMPUNK := "Steampunk".
Definition ART_DECO := "Art Deco".
Definition RETRO_FUTURISM := "Retro Futurism".

(** The members of the enumeration, in declaration order. *)
Definition values : list string :=
  [ REALISTIC; CINEMATIC; VINTAGE; PAINTING; CYBER;
    SKETCH; STUDIO; STEAMPUNK; ART_DECO; RETRO_FUTURISM ].
End ImageStyle.

Module Resolution.
Definition STANDARD := "Standard".
Definition HIGH := "High Quality".
Definition ULTRA_4K := "4K Ultra".
End Resolution.

Record GenerationResult : Type := mkResult {
  era : string;
  imageUrl : string
}.

(* ================================================================== *)
(** ** The remote generation collaborator ([ai.models.generateContent]) *)

Inductive Part : Type :=
| InlineData (data mimeType : string)
| TextPart (text : string).

Record GenerateContentParameters : Type := mkParams {
  model : string;
  parts : list Part
}.

(** A part of a response; [inlineData_data] is [part.inlineData.data] when
    both are there. *)
Record ResponsePart : Type := mkResponsePart {
  inlineData_data : option string
}.

(** [response.text] and [response.candidates?.[0]?.content?.parts]. *)
Record GenerateContentResponse : Type := mkResponse {
  response_text : option string;
  candidate_parts : option (list ResponsePart)
}.

Definition Remote : Type :=
  nat -> GenerateContentParameters -> Completion GenerateContentResponse.

(* ================================================================== *)
(** ** Asynchronous functions *)

(** An [async] function over a store [St]: it returns, or performs a state
    update and goes on, or awaits one remote call and goes on with what the
    call completed with.  Nothing after a [Call] exists before the call has
    completed. *)
Inductive Async (St R : Type) : Type :=
| Ret (r : R)
| Update (u : St -> St) (k : Async St R)
| Call (q : GenerateContentParameters)
       (k : Completion GenerateContentResponse -> Async St R).
Arguments Ret {St R} r.
Arguments Update {St R} u k.
Arguments Call {St R} q k.

Fixpoint bind {St A B} (p : Async St A) (f : A -> Async St B) : Async St B :=
  match p with
  | Ret a => f a
  | Update u k => Update u (bind k f)
  | Call q k => Call q (fun o => bind (k o) f)
  end.

(** One React setter call. *)
Definition modify {St} (u : St -> St) : Async St unit := Update u (Ret tt).

Declare Scope async_scope.
Delimit Scope async_scope with async.
Notation "x <- p ;; q" := (bind p (fun x => q))
  (at level 61, p at next level, right associativity) : async_scope.
Notation "p ;; q" := (bind p (fun _ => q))
  (at level 61, right associativity) : async_scope.

(** What an observer of one run sees: request number [i] leaving, with the
    store as it was rendered at that moment, and request number [i]
    completing. *)
Inductive Event (St : Type) : Type :=
| Issued (i : nat) (q : GenerateContentParameters) (snapshot : St)
| Settled (i : nat) (o : Completion GenerateContentResponse).
Arguments Issued {St} i q snapshot.
Arguments Settled {St} i o.

Record Ran (St R : Type) : Type := mkRan {
  value : R;
  final : St;
  next : nat;
  trace : list (Event St)
}.
Arguments mkRan {St R}.
Arguments value {St R}.
Arguments final {St R}.
Arguments next {St R}.
Arguments trace {St R}.

(** Run [p] from store [s]; the remote calls of the run are numbered from
    [n]. *)
Fixpoint run {St R} (remote : Remote) (n : nat) (p : Async St R) (s : St)
  : Ran St R :=
  match p with
  | Ret r => mkRan r s n []
  | Update u k => run remote n k (u s)
  | Call q k =>
      let o := remote n q in
      let r := run remote (S n) (k o) s in
      mkRan (value r) (final r) (next r)
            (Issued n q s :: Settled n o :: trace r)
  end.

(** The requests of a trace, in the order they left. *)
Fixpoint issued {St} (tr : list (Event St)) : list GenerateContentParameters :=
  match tr with
  | [] => []
  | Issued _ q _ :: tr' => q :: issued tr'
  | Settled _ _ :: tr' => issued tr'
  end.

(** Every request of the trace is answered before anything else happens:
    request [n], its completion, request [n+1], its completion, ... *)
Fixpoint sequential {St} (n : nat) (tr : list (Event St)) : Prop :=
  match tr with
  | [] => True
  | Issued i _ _ :: Settled j _ :: tr' => i = n /\ j = n /\ sequential (S n) tr'
  | _ => False
  end.

(* ================================================================== *)
(** ** services/geminiService.ts *)

Module geminiService.

Definition data_url_headers : list string :=
  [ "data:image/png;base64,"; "data:image/jpeg;base64,";
    "data:image/jpg;base64,"; "data:image/webp;base64," ].

(** [s.replace(/^data:image\/(png|jpeg|jpg|webp);base64,/, '')] *)
Definition cleanBase64 (s : string) : string :=
  let fix go (hs : list string) : string :=
    match hs with
    | [] => s
    | h :: hs' =>
        match strip_prefix h s with
        | Some rest => rest
        | None => go hs'
        end
    end in
  go data_url_headers.

Definition getStylePrompt (style : string) : string :=
  if style =? ImageStyle.CINEMATIC then
    "Cinematic lighting, dramatic atmosphere, movie still quality, color graded, widescreen aspect ratio."
  else if style =? ImageStyle.VINTAGE then
    "Vintage film grain, sepia tones, slightly faded, daguerreotype style, authentic period look."
  else if style =? ImageStyle.PAINTING then
    "Oil painting style, visible brushstrokes, classical art composition, textured canvas look."
  else if style =? ImageStyle.CYBER then
    "Neon lighting, high contrast, glowing accents, futuristic aesthetic, cybernetic details."
  else if style =? ImageStyle.SKETCH then
    "Charcoal sketch, pencil lines, artistic shading, monochrome, hand-drawn style."
  else if style =? ImageStyle.STUDIO then
    "Professional studio lighting, softbox, neutral background, high key, perfect portrait."
  else if style =? ImageStyle.STEAMPUNK then
    "Steampunk aesthetic, brass gears, copper accents, steam-powered machinery background, victorian industrial style."
  else if style =? ImageStyle.ART_DECO then
    "Art Deco style, geometric patterns, gold and black color palette, lavish 1920s luxury, symmetrical composition."
  else if style =? ImageStyle.RETRO_FUTURISM then
    "Retro-futurism, 1950s atomic age sci-fi, chrome surfaces, flying cars, vibrant colors, space age optimism."
  else
    "Photorealistic, natural lighting, sharp focus, true to life colors.".

Definition getResolutionPrompt (resolution : string) (detailLevel : Z)
  : string :=
  let base :=
    if resolution =? Resolution.HIGH then
      "High quality, detailed, sharp focus."
    else if resolution =? Resolution.ULTRA_4K then
      "4K resolution, ultra sharp, highly detailed, masterful quality."
    else "Standard resolution." in
  let detailDesc :=
    if (detailLevel <? 30)%Z then
      "soft edges, smooth textures, dreamy quality"
    else if (detailLevel >? 70)%Z then
      "intricate micro-details, hyper-realistic textures, extremely sharp edges, high fidelity"
    else "balanced details" in
  base ++ " Ensure the image has " ++ detailDesc ++ ".".

(** The first part that carries image data, as the loop over
    [response.candidates?.[0]?.content?.parts] finds it. *)
Fixpoint first_image (ps : list ResponsePart) : option string :=
  match ps with
  | [] => None
  | p :: ps' =>
      match present (inlineData_data p) with
      | Some d => Some d
      | None => first_image ps'
      end
  end.

Definition image_of (r : GenerateContentResponse) : option string :=
  match candidate_parts r with
  | Some ps => first_image ps
  | None => None
  end.

Section Calls.
Context {St : Type}.
Local Open Scope async_scope.

Definition ANALYSIS_MODEL := "gemini-3-pro-preview".
Definition IMAGE_MODEL := "gemini-2.5-flash-image".

Inductive AnalysisType : Type := CONTEXT | DAMAGE.

Definition analysis_prompt (analysisType : AnalysisType) : string :=
  match analysisType with
  | CONTEXT =>
      "Analyze this image in detail. Describe the person's appearance, expression, clothing, and the setting. Provide a creative assessment of what historical era they might accidentally fit into based on their vibe."
  | DAMAGE =>
      "Analyze this image specifically for physical defects, damage, and age-related degradation. Look for scratches, dust, tears, discoloration, fading, noise, blurriness, or artifacts. Provide a concise list of what needs to be repaired to restore it to pristine condition."
  end.

Definition analyzeImage (base64Image : string) (analysisType : AnalysisType)
  : Async St (Completion string) :=
  Call (mkParams ANALYSIS_MODEL
          [ InlineData (cleanBase64 base64Image) "image/jpeg";
            TextPart (analysis_prompt analysisType) ])
    (fun o =>
       match o with
       | Normal response =>
           Ret (Normal (or_else (response_text response)
                                "No analysis available."))
       | Thrown _ =>
           Ret (Thrown (mkError "Failed to analyze image. Please try again."))
       end).

Definition generateCreativePrompt (base64Image : string)
  : Async St (Completion string) :=
  Call (mkParams ANALYSIS_MODEL
          [ InlineData (cleanBase64 base64Image) "image/jpeg";
            TextPart "Act as an expert AI prompt engineer. Analyze this image and generate a high-quality, detailed text prompt that could be used to recreate this exact image using an AI image generator. Include specific details about the subject, pose, facial expression, clothing, textures, lighting, camera angle, depth of field, and overall artistic style/mood. Output ONLY the raw prompt text, no conversational filler." ])
    (fun o =>
       match o with
       | Normal response =>
           Ret (Normal (or_else (response_text response) EmptyString))
       | Thrown _ => Ret (Thrown (mkError "Failed to generate prompt."))
       end).

Definition processImage (base64Data textPrompt : string)
  : Async St (Completion string) :=
  Call (mkParams IMAGE_MODEL
          [ InlineData base64Data "image/jpeg"; TextPart textPrompt ])
    (fun o =>
       match o with
       | Normal response =>
           match image_of response with
           | Some d => Ret (Normal ("data:image/png;base64," ++ d))
           | None =>
               (* throw new Error("No image generated.") lands in the
                  catch of the same function *)
               Ret (Thrown (mkError
                      "Failed to generate image. Please try again."))
           end
       | Thrown _ =>
           Ret (Thrown (mkError
                  "Failed to generate image. Please try again."))
       end).

Definition timeTravel_prompt (e : Era) (stylePrompt resolutionPrompt : string)
  : string :=
  nl ++ "    Transform this image into a scene from the " ++ Era_value e ++ "."
  ++ nl ++ "    Keep the person's facial features and likeness exactly as they are in the original photo, but change their clothing and the background to match the "
  ++ Era_value e ++ "."
  ++ nl ++ "    " ++ stylePrompt
  ++ nl ++ "    " ++ resolutionPrompt
  ++ nl ++ "  ".

Definition timeTravel (base64Image : string) (e : Era)
    (style resolution : string) (detailLevel : Z)
  : Async St (Completion string) :=
  let stylePrompt := getStylePrompt style in
  let resolutionPrompt := getResolutionPrompt resolution detailLevel in
  processImage (cleanBase64 base64Image)
               (timeTravel_prompt e stylePrompt resolutionPrompt).

Definition customEdit (base64Image customPrompt : string)
    (style resolution : string) (detailLevel : Z)
  : Async St (Completion string) :=
  let stylePrompt := getStylePrompt style in
  let resolutionPrompt := getResolutionPrompt resolution detailLevel in
  let fullPrompt :=
    customPrompt ++ ". " ++ stylePrompt ++ " " ++ resolutionPrompt in
  processImage (cleanBase64 base64Image) fullPrompt.

Definition magicEdit_prompt (editPrompt : string) : string :=
  nl ++ "    You are an expert image editor. I have provided two images."
  ++ nl ++ "    1. The original image."
  ++ nl ++ "    2. A mask image where the white area indicates the specific region to edit."
  ++ nl ++ "    "
  ++ nl ++ "    Task: Edit the original image by changing the content of the masked area to match this instruction: '"
  ++ editPrompt ++ "'."
  ++ nl ++ "    "
  ++ nl ++ "    Rules:"
  ++ nl ++ "    - Seamlessly blend the edited area with the surrounding pixels (inpainting)."
  ++ nl ++ "    - Do NOT modify any part of the image that corresponds to the black area of the mask."
  ++ nl ++ "    - Maintain the lighting, perspective, and quality of the original image."
  ++ nl ++ "  ".

Definition magicEdit (base64Image base64Mask editPrompt : string)
  : Async St (Completion string) :=
  Call (mkParams IMAGE_MODEL
          [ InlineData (cleanBase64 base64Image) "image/jpeg";
            InlineData (cleanBase64 base64Mask) "image/png";
            TextPart (magicEdit_prompt editPrompt) ])
    (fun o =>
       match o with
       | Normal response =>
           match image_of response with
           | Some d => Ret (Normal ("data:image/png;base64," ++ d))
           | None =>
               Ret (Thrown (mkError
                      "Failed to edit image. Please try again."))
           end
       | Thrown _ =>
           Ret (Thrown (mkError "Failed to edit image. Please try again."))
       end).

End Calls.

(** The two clauses of [getResolutionPrompt], as the design document
    words them. *)
Definition tier_clause (resolution : string) : string :=
  if resolution =? Resolution.HIGH then
    "High quality, detailed, sharp focus."
  else if resolution =? Resolution.ULTRA_4K then
    "4K resolution, ultra sharp, highly detailed, masterful quality."
  else "Standard resolution.".

Definition SOFT := "soft edges, smooth textures, dreamy quality".
Definition HIGH_FIDELITY :=
  "intricate micro-details, hyper-realistic textures, extremely sharp edges, high fidelity".
Definition BALANCED := "balanced details".

Definition REALISTIC_CLAUSE :=
  "Photorealistic, natural lighting, sharp focus, true to life colors.".

End geminiService.

(* ================================================================== *)
(** ** App.tsx: the session and its handlers *)

Module App.
Import geminiService.
Local Open Scope async_scope.

(** The [useState] cells of [App] that the handlers read or write. *)
Record Session : Type := mkSession {
  state : AppState;
  capturedImage : option string;
  generatedResults : list GenerationResult;
  activeIndex : nat;
  analysisText : option string;
  error : option string;
  selectedStyle : string;
  selectedResolution : string;
  detailLevel : Z;
  customPrompt : string;
  activeFilter : string
}.

Definition with_state (v : AppState) (s : Session) : Session :=
  mkSession v (capturedImage s) (generatedResults s) (activeIndex s)
    (analysisText s) (error s) (selectedStyle s) (selectedResolution s)
    (detailLevel s) (customPrompt s) (activeFilter s).
Definition with_capturedImage (v : option string) (s : Session) : Session :=
  mkSession (state s) v (generatedResults s) (activeIndex s)
    (analysisText s) (error s) (selectedStyle s) (selectedResolution s)
    (detailLevel s) (customPrompt s) (activeFilter s).
Definition with_generatedResults (v : list GenerationResult) (s : Session)
  : Session :=
  mkSession (state s) (capturedImage s) v (activeIndex s)
    (analysisText s) (error s) (selectedStyle s) (selectedResolution s)
    (detailLevel s) (customPrompt s) (activeFilter s).
Definition with_activeIndex (v : nat) (s : Session) : Session :=
  mkSession (state s) (capturedImage s) (generatedResults s) v
    (analysisText s) (error s) (selectedStyle s) (selectedResolution s)
    (detailLevel s) (customPrompt s) (activeFilter s).
Definition with_analysisText (v : option string) (s : Session) : Session :=
  mkSession (state s) (capturedImage s) (generatedResults s) (activeIndex s)
    v (error s) (selectedStyle s) (selectedResolution s)
    (detailLevel s) (customPrompt s) (activeFilter s).
Definition with_error (v : option string) (s : Session) : Session :=
  mkSession (state s) (capturedImage s) (generatedResults s) (activeIndex s)
    (analysisText s) v (selectedStyle s) (selectedResolution s)
    (detailLevel s) (customPrompt s) (activeFilter s).
Definition with_selectedStyle (v : string) (s : Session) : Session :=
  mkSession (state s) (capturedImage s) (generatedResults s) (activeIndex s)
    (analysisText s) (error s) v (selectedResolution s)
    (detailLevel s) (customPrompt s) (activeFilter s).
Definition with_selectedResolution (v : string) (s : Session) : Session :=
  mkSession (state s) (capturedImage s) (generatedResults s) (activeIndex s)
    (analysisText s) (error s) (selectedStyle s) v
    (detailLevel s) (customPrompt s) (activeFilter s).
Definition with_detailLevel (v : Z) (s : Session) : Session :=
  mkSession (state s) (capturedImage s) (generatedResults s) (activeIndex s)
    (analysisText s) (error s) (selectedStyle s) (selectedResolution s)
    v (customPrompt s) (activeFilter s).
Definition with_customPrompt (v : string) (s : Session) : Session :=
  mkSession (state s) (capturedImage s) (generatedResults s) (activeIndex s)
    (analysisText s) (error s) (selectedStyle s) (selectedResolution s)
    (detailLevel s) v (activeFilter s).
Definition with_activeFilter (v : string) (s : Session) : Session :=
  mkSession (state s) (capturedImage s) (generatedResults s) (activeIndex s)
    (analysisText s) (error s) (selectedStyle s) (selectedResolution s)
    (detailLevel s) (customPrompt s) v.

Definition setState v := modify (with_state v).
Definition setCapturedImage v := modify (with_capturedImage v).
Definition setGeneratedResults v := modify (with_generatedResults v).
Definition setActiveIndex v := modify (with_activeIndex v).
Definition setAnalysisText v := modify (with_analysisText v).
Definition setError v := modify (with_error v).
Definition setSelectedStyle v := modify (with_selectedStyle v).
Definition setSelectedResolution v := modify (with_selectedResolution v).
Definition setDetailLevel v := modify (with_detailLevel v).
Definition setCustomPrompt v := modify (with_customPrompt v).
Definition setActiveFilter v := modify (with_activeFilter v).

(** The session a page load starts from; the three settings are what
    local storage held, already defaulted. *)
Definition initial (style resolution : string) (detail : Z) : Session :=
  mkSession HOME None [] 0 None None style resolution detail
            EmptyString "none".

(** [e.message || fallback] *)
Definition message_or (e : Js.Error) (fallback : string) : string :=
  or_else (Some (message e)) fallback.

(** Each handler is a closure over the session of the render it was
    created in ([env]); its setter calls act on the live store. *)

Definition startApp : Async Session unit := setState CAPTURE.

(** [imageSrc] is what the camera or the file reader hands over: a data
    URL, or the [null] that [reader.result] is after a file could not be
    read (the cast [as string] checks nothing). *)
Definition handleCapture (imageSrc : option string) : Async Session unit :=
  setCapturedImage imageSrc ;;
  setState PREVIEW ;;
  setError None ;;
  setAnalysisText None ;;
  setGeneratedResults [] ;;
  setActiveFilter "none" ;;
  setCustomPrompt EmptyString.

Definition reset : Async Session unit :=
  setCapturedImage None ;;
  setGeneratedResults [] ;;
  setAnalysisText None ;;
  setState HOME ;;
  setActiveFilter "none" ;;
  setCustomPrompt EmptyString.

Definition handleAnalyze (env : Session) : Async Session unit :=
  match present (capturedImage env) with
  | None => Ret tt
  | Some img =>
      setState PROCESSING ;;
      setError None ;;
      r <- analyzeImage img CONTEXT ;;
      match r with
      | Normal text =>
          setAnalysisText (Some text) ;;
          setState PREVIEW
      | Thrown e =>
          setError (Some (message_or e "Analysis failed")) ;;
          setState PREVIEW
      end
  end.

Definition handleGeneratePrompt (env : Session) : Async Session unit :=
  match present (capturedImage env) with
  | None => Ret tt
  | Some img =>
      r <- generateCreativePrompt img ;;
      match r with
      | Normal prompt => setCustomPrompt prompt
      | Thrown _ => Ret tt
      end
  end.

Definition restorationPrompt (damageReport : string) : string :=
  "Restore this photograph to perfection. Fix the following issues: "
  ++ damageReport
  ++ ". Remove all scratches, tears, noise, and blur. Enhance clarity and sharpness. Ensure colors are natural and vibrant.".

Definition handleRestore (env : Session) : Async Session unit :=
  match present (capturedImage env) with
  | None => Ret tt
  | Some img =>
      setState RESTORE ;;
      setError None ;;
      setGeneratedResults [] ;;
      setActiveIndex 0 ;;
      setActiveFilter "none" ;;
      a <- analyzeImage img DAMAGE ;;
      match a with
      | Thrown e =>
          setError (Some (message_or e "Restoration failed.")) ;;
          setState PREVIEW
      | Normal damageReport =>
          r <- customEdit img (restorationPrompt damageReport)
                 ImageStyle.REALISTIC Resolution.HIGH 80 ;;
          match r with
          | Normal imageUrl =>
              setGeneratedResults [ mkResult "Restored Photo" imageUrl ] ;;
              setState RESULT
          | Thrown e =>
              setError (Some (message_or e "Restoration failed.")) ;;
              setState PREVIEW
          end
      end
  end.

(** The [for (const era of eras)] loop inside the [try] of
    [handleStartJourney].  [results] is the local array the loop pushes
    to; it is handed on together with how the loop completed, because the
    [catch] block reads it. *)
Fixpoint journey_loop (img : string) (env : Session) (eras : list Era)
    (results : list GenerationResult)
  : Async Session (list GenerationResult * Completion unit) :=
  match eras with
  | [] => Ret (results, Normal tt)
  | e :: rest =>
      r <- timeTravel img e (selectedStyle env) (selectedResolution env)
             (detailLevel env) ;;
      match r with
      | Normal imageUrl =>
          let results' := (results ++ [ mkResult (Era_value e) imageUrl ])%list in
          setGeneratedResults results' ;;
          journey_loop img env rest results'
      | Thrown err => Ret (results, Thrown err)
      end
  end.

Definition handleStartJourney (env : Session) (eras : list Era)
  : Async Session unit :=
  match present (capturedImage env), eras with
  | None, _ => Ret tt
  | Some _, [] => Ret tt
  | Some img, _ :: _ =>
      setState PROCESSING ;;
      setError None ;;
      setGeneratedResults [] ;;
      setActiveIndex 0 ;;
      setActiveFilter "none" ;;
      out <- journey_loop img env eras [] ;;
      match snd out with
      | Normal _ => setState RESULT
      | Thrown e =>
          setError (Some (message_or e "Failed during time travel.")) ;;
          if (0 <? length (fst out))%nat
          then setState RESULT
          else setState PREVIEW
      end
  end.

Definition handleCustomEdit (env : Session) (prompt : string)
  : Async Session unit :=
  match present (capturedImage env) with
  | None => Ret tt
  | Some img =>
      setState PROCESSING ;;
      setError None ;;
      setGeneratedResults [] ;;
      setActiveIndex 0 ;;
      setActiveFilter "none" ;;
      r <- customEdit img prompt (selectedStyle env) (selectedResolution env)
             (detailLevel env) ;;
      match r with
      | Normal imageUrl =>
          setGeneratedResults [ mkResult "Custom Reality" imageUrl ] ;;
          setState RESULT
      | Thrown e =>
          setError (Some (message_or e "Custom edit failed")) ;;
          setState PREVIEW
      end
  end.

Definition handleStartMagicEdit : Async Session unit := setState MASKING.

Definition handleMagicEditProcess (env : Session) (maskImage prompt : string)
  : Async Session unit :=
  match present (capturedImage env) with
  | None => Ret tt
  | Some img =>
      setState PROCESSING ;;
      setError None ;;
      setGeneratedResults [] ;;
      setActiveIndex 0 ;;
      setActiveFilter "none" ;;
      r <- magicEdit img maskImage prompt ;;
      match r with
      | Normal imageUrl =>
          setGeneratedResults [ mkResult "Magic Edit" imageUrl ] ;;
          setState RESULT
      | Thrown e =>
          setError (Some (message_or e "Magic edit failed")) ;;
          setState PREVIEW
      end
  end.

(** *** What the rendered page lets the user do *)

Inductive Action : Type :=
| StartApp
| Capture (imageSrc : option string)
| CancelCapture
| Reset
| Analyze
| GeneratePrompt
| Restore
| StartJourney (eras : list Era)
| CustomEdit
| StartMagicEdit
| CancelMask
| ConfirmMask (maskImage prompt : string)
| BackToPreview
| SelectResult (idx : nat)
| SelectFilter (value : string)
| ChangeStyle (style : string)
| ChangeResolution (resolution : string)
| ChangeDetailLevel (level : Z)
| ChangeCustomPrompt (value : string).

(** The control behind an action is on the page and not disabled. *)
Definition enabled (a : Action) (s : Session) : bool :=
  match state s, a with
  | HOME, StartApp => true
  | CAPTURE, (Capture _ | CancelCapture) => true
  | PREVIEW, (Reset | Analyze | GeneratePrompt | Restore | StartMagicEdit
             | ChangeStyle _ | ChangeResolution _ | ChangeDetailLevel _
             | ChangeCustomPrompt _) => true
  | PREVIEW, StartJourney eras => (0 <? length eras)%nat
  | PREVIEW, CustomEdit => truthy (customPrompt s)
  | MASKING, (CancelMask | ConfirmMask _ _) => true
  | RESULT, (BackToPreview | Reset | SelectFilter _) => true
  | RESULT, SelectResult idx =>
      (1 <? length (generatedResults s))%nat
      && (idx <? length (generatedResults s))%nat
  | _, _ => false
  end.

Definition handler (a : Action) (env : Session) : Async Session unit :=
  match a with
  | StartApp => startApp
  | Capture imageSrc => handleCapture imageSrc
  | CancelCapture => setState HOME
  | Reset => reset
  | Analyze => handleAnalyze env
  | GeneratePrompt => handleGeneratePrompt env
  | Restore => handleRestore env
  | StartJourney eras => handleStartJourney env eras
  | CustomEdit => handleCustomEdit env (customPrompt env)
  | StartMagicEdit => handleStartMagicEdit
  | CancelMask => setState PREVIEW
  | ConfirmMask maskImage prompt => handleMagicEditProcess env maskImage prompt
  | BackToPreview => setState PREVIEW
  | SelectResult idx => setActiveIndex idx
  | SelectFilter value => setActiveFilter value
  | ChangeStyle style => setSelectedStyle style
  | ChangeResolution resolution => setSelectedResolution resolution
  | ChangeDetailLevel level => setDetailLevel level
  | ChangeCustomPrompt value => setCustomPrompt value
  end.

(** One user action, carried through to the end of its handler against
    the collaborator [remote], with no other event in between.  The
    loading screen has no control, but a file read that ends while a
    handler is suspended, or a click while the prompt generation (which
    stays in PREVIEW) is waiting, would come in between: [dispatch],
    [visit] and [reachable] describe the visits in which every handler
    has finished before the next event arrives, and a capture arrives
    while the capture screen is shown. *)
Definition dispatch (remote : Remote) (a : Action) (s : Session) : Session :=
  final (run remote 0 (handler a s) s).

(** A user visit: each action with the collaborator behaviour it met. *)
Fixpoint visit (steps : list (Remote * Action)) (s : Session) : Session :=
  match steps with
  | [] => s
  | (remote, a) :: rest =>
      if enabled a s then visit rest (dispatch remote a s) else visit rest s
  end.

Inductive reachable : Session -> Prop :=
| reachable_initial style resolution detail :
    reachable (initial style resolution detail)
| reachable_dispatch remote a s :
    reachable s -> enabled a s = true -> reachable (dispatch remote a s).

(** [0 <= activeIndex < max(1, len(results))] *)
Definition index_in_range (s : Session) : Prop :=
  (activeIndex s < Nat.max 1 (length (generatedResults s)))%nat.

(** The request [timeTravel] sends for one era under the settings of
    [env]. *)
Definition era_request (img : string) (env : Session) (e : Era)
  : GenerateContentParameters :=
  mkParams IMAGE_MODEL
    [ InlineData (cleanBase64 img) "image/jpeg";
      TextPart (timeTravel_prompt e (getStylePrompt (selectedStyle env))
                  (getResolutionPrompt (selectedResolution env)
                                       (detailLevel env))) ].

(** The collaborator produced an image / produced none (an error, or a
    response without image data). *)
Definition succeeds (o : Completion GenerateContentResponse) : Prop :=
  match o with
  | Normal response => image_of response <> None
  | Thrown _ => False
  end.

Definition fails (o : Completion GenerateContentResponse) : Prop :=
  match o with
  | Normal response => image_of response = None
  | Thrown _ => True
  end.

(** The collaborator answers the first [k] items of the batch with an
    image and item [k], if there is one, without; calls are numbered
    from [n]. *)
Definition k_then_failure (remote : Remote) (img : string) (env : Session)
    (eras : list Era) (n k : nat) : Prop :=
  (k <= length eras)%nat
  /\ (forall i e, (i < k)%nat -> nth_error eras i = Some e ->
                  succeeds (remote (n + i)%nat (era_request img env e)))
  /\ (forall e, nth_error eras k = Some e ->
                fails (remote (n + k)%nat (era_request img env e))).

(** The store after the setter calls a pipeline handler makes before its
    first [await]. *)
Definition begin_run (phase : AppState) (s : Session) : Session :=
  with_activeFilter "none"
    (with_activeIndex 0
       (with_generatedResults [] (with_error None (with_state phase s)))).

Definition GENERATION_FAILED : string :=
  "Failed to generate image. Please try again.".

(** The requests the single-item handlers send. *)
Definition edit_request (img prompt style resolution : string) (detail : Z)
  : GenerateContentParameters :=
  mkParams IMAGE_MODEL
    [ InlineData (cleanBase64 img) "image/jpeg";
      TextPart (prompt ++ ". " ++ getStylePrompt style ++ " "
                ++ getResolutionPrompt resolution detail) ].

Definition analysis_request (img : string) (analysisType : AnalysisType)
  : GenerateContentParameters :=
  mkParams ANALYSIS_MODEL
    [ InlineData (cleanBase64 img) "image/jpeg";
      TextPart (analysis_prompt analysisType) ].

Definition mask_request (img maskImage prompt : string)
  : GenerateContentParameters :=
  mkParams IMAGE_MODEL
    [ InlineData (cleanBase64 img) "image/jpeg";
      InlineData (cleanBase64 maskImage) "image/png";
      TextPart (magicEdit_prompt prompt) ].

(** The one transformation request of the restoration flow, written out:
    style Photorealistic, tier High Quality, detail level 80. *)
Definition restoration_request (img damageReport : string)
  : GenerateContentParameters :=
  mkParams "gemini-2.5-flash-image"
    [ InlineData (cleanBase64 img) "image/jpeg";
      TextPart (restorationPrompt damageReport
                ++ ". Photorealistic, natural lighting, sharp focus, true to life colors. High quality, detailed, sharp focus. Ensure the image has intricate micro-details, hyper-realistic textures, extremely sharp edges, high fidelity.") ].

(** What [analyzeImage] makes of a response. *)
Definition report_of (response : GenerateContentResponse) : string :=
  or_else (response_text response) "No analysis available.".

(** "The transition into PROCESSING or RESTORE has cleared the error and
    the results": the store rendered when the first request of the run
    left. *)
Definition clears_on_entry (remote : Remote) (a : Action) (s : Session)
  : Prop :=
  forall q snap,
    In (Issued 0 q snap) (trace (run remote 0 (handler a s) s)) ->
    state snap = PROCESSING \/ state snap = RESTORE ->
    error snap = None /\ generatedResults snap = [].

(** The index points at a result whenever there is one. *)
Definition index_valid_when_results (s : Session) : Prop :=
  generatedResults s = [] \/ (activeIndex s < length (generatedResults s))%nat.

End App.

(** Collaborators and visits used as concrete cases. *)
Module Scenario.
Import App.

Definition image_response (d : string) : GenerateContentResponse :=
  mkResponse None (Some [ mkResponsePart (Some d) ]).

(** A response that carries text but no image ("no image generated"). *)
Definition text_response (t : string) : GenerateContentResponse :=
  mkResponse (Some t) (Some [ mkResponsePart None ]).

Definition always_image : Remote :=
  fun _ _ => Normal (image_response "iVBORw0KGgo=").

(** The first call yields an image, every later one yields none. *)
Definition first_only : Remote :=
  fun i _ =>
    match i with
    | 0%nat => Normal (image_response "iVBORw0KGgo=")
    | S _ => Normal (text_response "I cannot do that.")
    end.

Definition never_image : Remote :=
  fun _ _ => Thrown (mkError "503").

Definition photo : string := "data:image/jpeg;base64,/9j/4AAQSkZJRg==".

Definition fresh : Session :=
  initial ImageStyle.CINEMATIC Resolution.ULTRA_4K 25.

(** Capture a photo, then run the two eras of the design document's
    scenario; the second item yields no image. *)
Definition partial_failure : Session :=
  visit [ (always_image, StartApp);
          (always_image, Capture (Some photo));
          (first_only, StartJourney [ VIKING; CYBERPUNK ]) ] fresh.

(** Both eras succeed, the user looks at the second result. *)
Definition second_result_selected : Session :=
  visit [ (always_image, StartApp);
          (always_image, Capture (Some photo));
          (always_image, StartJourney [ VIKING; CYBERPUNK ]);
          (always_image, SelectResult 1) ] fresh.

(** A finished run, then back to the preview. *)
Definition back_in_preview : Session :=
  visit [ (always_image, StartApp);
          (always_image, Capture (Some photo));
          (always_image, StartJourney [ VIKING ]);
          (always_image, BackToPreview) ] fresh.

(** The same, and a custom instruction typed in. *)
Definition prompt_typed : Session :=
  visit [ (always_image, StartApp);
          (always_image, Capture (Some photo));
          (always_image, StartJourney [ VIKING ]);
          (always_image, BackToPreview);
          (always_image, ChangeCustomPrompt "as a pirate") ] fresh.

Definition captured : Session :=
  visit [ (always_image, StartApp); (always_image, Capture (Some photo)) ] fresh.

End Scenario.

(* ================================================================== *)
(** ** components/MaskEditor.tsx *)

Module MaskEditor.

Local Open Scope Z_scope.

(** One RGBA pixel of a canvas, channels in 0..255, colour not
    premultiplied (as [getImageData] reports it). *)
Record Pixel : Type := mkPixel { red : Z; green : Z; blue : Z; alpha : Z }.

Definition BLACK : Pixel := mkPixel 0 0 0 255.
Definition WHITE : Pixel := mkPixel 255 255 255 255.
Definition TRANSPARENT : Pixel := mkPixel 0 0 0 0.

Record Canvas : Type := mkCanvas {
  width : nat;
  height : nat;
  pixels : list Pixel
}.

(** [ctx.clearRect(0, 0, canvas.width, canvas.height)] *)
Definition clearRect (c : Canvas) : Canvas :=
  mkCanvas (width c) (height c)
           (repeat TRANSPARENT (width c * height c)%nat).

(** A new canvas of the given size after [fillStyle = 'black'] and
    [fillRect] over all of it. *)
Definition fillBlack (w h : nat) : Canvas :=
  mkCanvas w h (repeat BLACK (w * h)%nat).

(** [getImageData(0, 0, width, height).data]: four entries per pixel. *)
Fixpoint getImageData (ps : list Pixel) : list Z :=
  match ps with
  | [] => []
  | p :: ps' => red p :: green p :: blue p :: alpha p :: getImageData ps'
  end.

(** [putImageData]: the pixels a flat array describes. *)
Fixpoint putImageData (data : list Z) : list Pixel :=
  match data with
  | r :: g :: b :: a :: rest => mkPixel r g b a :: putImageData rest
  | _ => []
  end.

(** The loop [for (let i = 0; i < data.length; i += 4)] of [handleSubmit]:
    it looks at [data[i]], the red entry.  A write past the end of a typed
    array does nothing, which is the last three cases. *)
Fixpoint binarize (data : list Z) : list Z :=
  match data with
  | r :: g :: b :: a :: rest =>
      if r >? 0 then 255 :: 255 :: 255 :: 255 :: binarize rest
      else r :: g :: b :: a :: binarize rest
  | [ r; g; b ] => if r >? 0 then [ 255; 255; 255 ] else [ r; g; b ]
  | [ r; g ] => if r >? 0 then [ 255; 255 ] else [ r; g ]
  | [ r ] => if r >? 0 then [ 255 ] else [ r ]
  | [] => []
  end.

(** What the loop does to one pixel. *)
Definition threshold (p : Pixel) : Pixel :=
  if red p >? 0 then WHITE else p.

Record PointerEvent : Type := mkPointer { clientX : Z; clientY : Z }.

(** The component's state cells, the canvas behind [canvasRef], and the
    current path of that canvas's 2D context: [path] is the point the
    next [lineTo] starts from, none when the path is empty. *)
Record Editor : Type := mkEditor {
  canvas : option Canvas;       (* canvasRef.current *)
  isDrawing : bool;
  brushSize : Z;
  prompt : string;
  hasDrawn : bool;
  path : option PointerEvent
}.

(** What [handleSubmit] does to the outside: it writes the thresholded
    array back into the mask canvas, and it calls [onConfirm] with the
    mask canvas (encoded without loss, as a PNG data URL) and the
    instruction. *)
Inductive Effect : Type :=
| PutImageData (data : list Z)
| OnConfirm (mask : Canvas) (instruction : string).

Definition binarizations (log : list Effect) : nat :=
  length (filter (fun e => match e with PutImageData _ => true
                                      | OnConfirm _ _ => false end) log).

Section Rendering.

(** The browser's part.  [quantize x] is the 8-bit value stored for the
    exact value [x / 255]; [strokeTo b from e c] is what [lineTo] and
    [stroke] put on the canvas [c] with the brush [b] and the stroke
    style [rgba(255, 0, 100, 0.5)]: the segment from the current point
    [from] of the path to the pointer position [e] (both mapped to canvas
    coordinates through the layout of the page, taken as the same for
    all events of a session), and with an empty path ([from] is none)
    whatever a path of the single point [e] gives. *)
Variable quantize : Z -> Z.
Variable strokeTo : Z -> option PointerEvent -> PointerEvent -> Canvas -> Canvas.

(** [source-over] of one pixel onto an opaque backdrop: the result is
    opaque, and each colour channel is
    [cs * as + cb * (1 - as)]. *)
Definition source_over (src dst : Pixel) : Pixel :=
  mkPixel (quantize (red src * alpha src + red dst * (255 - alpha src)))
          (quantize (green src * alpha src + green dst * (255 - alpha src)))
          (quantize (blue src * alpha src + blue dst * (255 - alpha src)))
          255.

(** [maskCtx.drawImage(canvas, 0, 0)] under [source-over]. *)
Fixpoint drawImage (src dst : list Pixel) : list Pixel :=
  match src, dst with
  | s :: src', d :: dst' => source_over s d :: drawImage src' dst'
  | _, _ => dst
  end.

(** [ctx.lineTo(x, y); ctx.stroke(); ctx.beginPath(); ctx.moveTo(x, y)]:
    the stroke runs from the point the path was left at, and the path is
    left at the pointer position. *)
Definition draw (ed : Editor) (e : PointerEvent) : Editor :=
  if isDrawing ed then
    match canvas ed with
    | None => ed
    | Some c =>
        mkEditor (Some (strokeTo (brushSize ed) (path ed) e c)) (isDrawing ed)
                 (brushSize ed) (prompt ed) true (Some e)
    end
  else ed.

(** [setIsDrawing(true); draw(e)]: [draw] still sees the [isDrawing] of
    the render the handler belongs to. *)
Definition startDrawing (ed : Editor) (e : PointerEvent) : Editor :=
  let ed' := draw ed e in
  mkEditor (canvas ed') true (brushSize ed') (prompt ed') (hasDrawn ed')
           (path ed').

(** [setIsDrawing(false)], and [ctx.beginPath()] when there is a canvas:
    the path is emptied. *)
Definition stopDrawing (ed : Editor) : Editor :=
  mkEditor (canvas ed) false (brushSize ed) (prompt ed) (hasDrawn ed)
           (match canvas ed with Some _ => None | None => path ed end).

(** [clearRect] and [setHasDrawn(false)]; the path is left as it is. *)
Definition handleClear (ed : Editor) : Editor :=
  match canvas ed with
  | None => ed
  | Some c =>
      mkEditor (Some (clearRect c)) (isDrawing ed) (brushSize ed)
               (prompt ed) false (path ed)
  end.

Definition setPrompt (v : string) (ed : Editor) : Editor :=
  mkEditor (canvas ed) (isDrawing ed) (brushSize ed) v (hasDrawn ed)
           (path ed).

(** The mask canvas [handleSubmit] builds from the visual canvas. *)
Definition composite (c : Canvas) : list Pixel :=
  drawImage (pixels c) (pixels (fillBlack (width c) (height c))).

Definition maskCanvas (c : Canvas) : Canvas :=
  mkCanvas (width c) (height c)
           (putImageData (binarize (getImageData (composite c)))).

Definition handleSubmit (ed : Editor) : list Effect :=
  if negb (truthy (trim (prompt ed))) then []
  else
    match canvas ed with
    | None => []
    | Some c =>
        [ PutImageData (binarize (getImageData (composite c)));
          OnConfirm (maskCanvas c) (prompt ed) ]
    end.

(** The confirm button: [disabled={!hasDrawn || !prompt.trim()}],
    [onClick={handleSubmit}]. *)
Definition confirm_disabled (ed : Editor) : bool :=
  negb (hasDrawn ed) || negb (truthy (trim (prompt ed))).

Definition click_confirm (ed : Editor) : list Effect :=
  if confirm_disabled ed then [] else handleSubmit ed.

(** The stroke layer contributes this colour to the mask pixel. *)
Definition contribution (p : Pixel) : Pixel := source_over p BLACK.

Definition any_channel_nonzero (p : Pixel) : bool :=
  negb (red p =? 0) || negb (green p =? 0) || negb (blue p =? 0).

End Rendering.

(** The editor once the image has loaded: the canvas has the image's
    size and is cleared, the brush is 20, nothing is typed or drawn, and
    the path of the resized canvas is empty. *)
Definition loaded (w h : nat) : Editor :=
  mkEditor (Some (clearRect (mkCanvas w h []))) false 20 EmptyString false
           None.

(** A visual canvas of three pixels: half-covered, untouched, and barely
    touched by a stroke. *)
Definition three_pixels : Canvas :=
  mkCanvas 3 1 [ mkPixel 255 0 100 128; TRANSPARENT; mkPixel 255 0 100 1 ].

(** A pixel of the visual canvas as [draw] leaves it: untouched, or
    covered to some opacity by strokes, whose colour has the red channel
    255 (the stroke style is [rgba(255, 0, 100, 0.5)]). *)
Definition ink (p : Pixel) : Prop :=
  0 <= alpha p <= 255 /\ (0 < alpha p -> red p = 255).

(** [quantize] rounds the exact quotient by 255 down or up. *)
Definition rounds (quantize : Z -> Z) : Prop :=
  forall x, 0 <= x -> 255 * quantize x <= x + 254 /\ x <= 255 * quantize x + 254.

(** Rounding to the nearest value. *)
Definition nearest (x : Z) : Z := (2 * x + 255) / 510.

End MaskEditor.

(* ================================================================== *)
(** ** More JavaScript string operations *)

Module JsText.

(** [String.prototype.toLowerCase] on the code units below U+0100: the
    letters A..Z, and the letters U+00C0..U+00DE without the
    multiplication sign U+00D7. *)
Definition lowerChar (c : ascii) : ascii :=
  let n := nat_of_ascii c in
  if ((65 <=? n) && (n <=? 90))%nat then ascii_of_nat (n + 32)
  else if ((192 <=? n) && (n <=? 222) && negb (n =? 215))%nat
       then ascii_of_nat (n + 32)
       else c.

Fixpoint toLowerCase (s : string) : string :=
  match s with
  | EmptyString => EmptyString
  | String c s' => String (lowerChar c) (toLowerCase s')
  end.

(** [s.includes(sub)] *)
Fixpoint includes (sub s : string) : bool :=
  match strip_prefix sub s with
  | Some _ => true
  | None =>
      match s with
      | EmptyString => false
      | String _ s' => includes sub s'
      end
  end.

(** [s.replace(/\s+/g, '-')]: every maximal run of whitespace becomes one
    hyphen.  [in_run] says that the character before was whitespace. *)
Fixpoint hyphenate (in_run : bool) (s : string) : string :=
  match s with
  | EmptyString => EmptyString
  | String c s' =>
      if isWhiteSpace c then
        if in_run then hyphenate true s'
        else String "-" (hyphenate true s')
      else String c (hyphenate false s')
  end.

Definition isUpperAZ (c : ascii) : bool :=
  let n := nat_of_ascii c in ((65 <=? n) && (n <=? 90))%nat.

(** No character of [s] satisfies [bad]. *)
Fixpoint free_of (bad : ascii -> bool) (s : string) : bool :=
  match s with
  | EmptyString => true
  | String c s' => negb (bad c) && free_of bad s'
  end.

End JsText.

(* ================================================================== *)
(** ** components/EraSelector.tsx: the era selection *)

Module EraSelector.

Definition Era_eqb (a b : Era) : bool :=
  match a, b with
  | VICTORIAN, VICTORIAN | ANCIENT_EGYPT, ANCIENT_EGYPT
  | ROARING_20S, ROARING_20S | VIKING, VIKING | CYBERPUNK, CYBERPUNK
  | MEDIEVAL, MEDIEVAL | WESTERN, WESTERN | RENAISSANCE, RENAISSANCE => true
  | _, _ => false
  end.

(** [prev.includes(era)] *)
Definition includes (prev : list Era) (e : Era) : bool :=
  existsb (Era_eqb e) prev.

(** [prev.includes(era) ? prev.filter(e => e !== era) : [...prev, era]] *)
Definition toggleEra (e : Era) (prev : list Era) : list Era :=
  if includes prev e
  then filter (fun x => negb (Era_eqb x e)) prev
  else (prev ++ [ e ])%list.

(** The selection after a series of clicks on era cards; the component
    mounts with nothing selected. *)
Definition selection (clicks : list Era) : list Era :=
  fold_left (fun sel e => toggleEra e sel) clicks [].

(** The cards of the grid, in the order they are laid out. *)
Definition cards : list Era :=
  [ VICTORIAN; ROARING_20S; VIKING; CYBERPUNK;
    ANCIENT_EGYPT; WESTERN; RENAISSANCE; MEDIEVAL ].

End EraSelector.

(* ================================================================== *)
(** ** components/Camera.tsx *)

Module Camera.
Import JsText.

(** What [getUserMedia] rejected with: [err.name] and [err.message], each
    possibly missing. *)
Record Rejection : Type := mkRejection {
  name : option string;
  message : option string
}.

Definition DENIED : string :=
  "Camera access was denied. Please allow camera access in your browser settings (click the lock icon in the address bar) and reload.".
Definition DISMISSED : string :=
  "Permission prompt was dismissed. Please try again.".
Definition NOT_FOUND : string := "No camera device found on this device.".
Definition IN_USE : string :=
  "Camera is currently in use by another application.".
Definition NO_ACCESS : string := "Could not access camera.".

(** The message the [catch] block of [startCamera] chooses. *)
Definition describe (err : Rejection) : string :=
  let name := or_else (name err) EmptyString in
  let message := or_else (message err) EmptyString in
  if (name =? "NotAllowedError") || (name =? "PermissionDeniedError")
     || includes "denied" (toLowerCase message)
  then DENIED
  else if includes "dismissed" (toLowerCase message) then DISMISSED
  else if (name =? "NotFoundError") || (name =? "DevicesNotFoundError")
  then NOT_FOUND
  else if name =? "NotReadableError" then IN_USE
  else NO_ACCESS.

(** The component's refs and state, and the media streams whose tracks
    have been stopped so far.  A stream is known by a number. *)
Record State : Type := mkState {
  streamRef : option nat;       (* streamRef.current *)
  isStreamActive : bool;
  error : string;
  stopped : list nat
}.

Definition mounted_state : State := mkState None false EmptyString [].

(** How the attempt to open the camera went. *)
Inductive Attempt : Type :=
| Unsupported                   (* no navigator.mediaDevices.getUserMedia *)
| Rejected (err : Rejection)
| Granted (stream : nat).

Definition stopCamera (st : State) : State :=
  match streamRef st with
  | Some id => mkState None false (error st) (id :: stopped st)
  | None => st
  end.

(** [startCamera]; [videoMounted] is [videoRef.current] being there when
    the stream arrives. *)
Definition startCamera (videoMounted : bool) (a : Attempt) (st : State)
  : State :=
  let st := stopCamera (mkState (streamRef st) (isStreamActive st)
                                EmptyString (stopped st)) in
  match a with
  | Unsupported =>
      mkState (streamRef st) (isStreamActive st)
        (describe (mkRejection (Some "Error")
                     (Some "Camera API is not supported in this browser.")))
        (stopped st)
  | Rejected err =>
      mkState (streamRef st) (isStreamActive st) (describe err) (stopped st)
  | Granted id =>
      if videoMounted
      then mkState (Some id) true (error st) (stopped st)
      else mkState (streamRef st) (isStreamActive st) (error st)
                   (id :: stopped st)
  end.

(** The shutter: the frame goes to [onCapture] when the video element is
    there, the stream is active and no error is shown; [frame] is the JPEG
    data URL of the current video frame, when a drawing context could be
    had. *)
Definition handleCapture (videoMounted : bool) (frame : option string)
    (st : State) : option string :=
  if videoMounted && isStreamActive st && negb (truthy (error st))
  then frame
  else None.

(** One thing that happens to the component. *)
Inductive Step : Type :=
| Start (videoMounted : bool) (a : Attempt)
| Stop.

Definition step (st : State) (x : Step) : State :=
  match x with
  | Start videoMounted a => startCamera videoMounted a st
  | Stop => stopCamera st
  end.

(** The streams the steps were granted. *)
Fixpoint granted (xs : list Step) : list nat :=
  match xs with
  | [] => []
  | Start _ (Granted id) :: xs' => id :: granted xs'
  | _ :: xs' => granted xs'
  end.

End Camera.

(* ================================================================== *)
(** ** App.tsx: what the views read from the session *)

Module AppView.
Import App JsText.

(** [generatedResults[activeIndex]] *)
Definition activeResult (s : Session) : option GenerationResult :=
  nth_error (generatedResults s) (activeIndex s).

(** What [renderResult] has to show: [None] is its "Error: No result". *)
Definition renderResult (s : Session) : option GenerationResult :=
  activeResult s.

(** The file name [handleDownload] gives the processed image. *)
Definition downloadName (s : Session) : string :=
  let currentEra :=
    or_else (option_map era (activeResult s)) "image" in
  "chronolens-" ++ toLowerCase (hyphenate false currentEra) ++ ".png".

Section Filters.

(** The browser's part of [applyFilterToImage]: the image drawn to a
    canvas under a CSS filter and read back as a PNG data URL, or the
    rejection of the promise. *)
Variable drawFiltered : string -> string -> Completion string.

Definition applyFilterToImage (imageUrl filter : string) : Completion string :=
  if negb (truthy filter) || (filter =? "none") then Normal imageUrl
  else drawFiltered imageUrl filter.

Definition getProcessedImage (s : Session) : Completion (option string) :=
  match present (option_map imageUrl (activeResult s)) with
  | None => Normal None
  | Some currentImage =>
      match applyFilterToImage currentImage (activeFilter s) with
      | Normal url => Normal (Some url)
      | Thrown e => Thrown e
      end
  end.

(** [handleDownload]: the link it clicks, as (href, download). *)
Definition handleDownload (s : Session) : option (string * string) :=
  match getProcessedImage s with
  | Normal (Some processedImage) =>
      if truthy processedImage
      then Some (processedImage, downloadName s)
      else None
  | _ => None
  end.

End Filters.

(** The decimal digits of a count, as a template string prints it. *)
Definition decimal (n : nat) : string :=
  NilEmpty.string_of_uint (Nat.to_uint n).

(** The status line of [renderLoadingState]. *)
Definition loadingStatus (isRestore : bool) (s : Session) : string :=
  if isRestore then "Analyzing structural integrity..."
  else if (0 <? length (generatedResults s))%nat
       then "Materializing Era " ++ decimal (length (generatedResults s)) ++ "..."
       else "Initiating Warp Drive...".

(** The error messages the service functions throw. *)
Definition service_errors : list string :=
  [ "Failed to generate image. Please try again.";
    "Failed to edit image. Please try again.";
    "Failed to analyze image. Please try again." ].

(** The texts the handlers fall back to when a thrown error carries no
    message, and the text [processImage] throws inside its own [try]. *)
Definition fallback_messages : list string :=
  [ "Analysis failed"; "Restoration failed."; "Failed during time travel.";
    "Custom edit failed"; "Magic edit failed"; "No image generated." ].

(** A URL the service functions return for a generated image. *)
Definition png_data_url (url : string) : Prop :=
  exists d, url = "data:image/png;base64," ++ d /\ truthy d = true.

(** What holds of the session between the actions of a visit in which no
    event arrives while a handler is suspended. *)
Record settled (s : Session) : Prop := mkSettled {
  settled_phase : state s <> PROCESSING /\ state s <> RESTORE;
  settled_home :
    state s = HOME \/ state s = CAPTURE ->
    capturedImage s = None /\ generatedResults s = [];
  settled_result : state s = RESULT -> generatedResults s <> [];
  settled_index :
    generatedResults s = []
    \/ (activeIndex s < length (generatedResults s))%nat;
  settled_urls :
    Forall (fun r => png_data_url (imageUrl r)) (generatedResults s);
  settled_error :
    error s = None \/ exists m, error s = Some m /\ In m service_errors
}.

(** A session that still carries what an earlier run left behind. *)
Definition leftovers (results : list GenerationResult) (err : option string)
    (idx : nat) (filter : string) (s : Session) : Session :=
  with_generatedResults results
    (with_error err (with_activeIndex idx (with_activeFilter filter s))).

(** The actions that run the pipeline. *)
Definition starts_run (a : Action) : bool :=
  match a with
  | Restore | CustomEdit | ConfirmMask _ _ => true
  | StartJourney eras => (0 <? length eras)%nat
  | _ => false
  end.

(** The actions whose handler awaits the collaborator. *)
Definition awaits (a : Action) : bool :=
  match a with
  | Analyze | GeneratePrompt | Restore | StartJourney _ | CustomEdit
  | ConfirmMask _ _ => true
  | _ => false
  end.

End AppView.

(* ================================================================== *)
(** ** components/MaskEditor.tsx: a drawing session *)

Module MaskSession.
Import MaskEditor.

Inductive EditorEvent : Type :=
| PointerDown (e : PointerEvent)
| PointerMove (e : PointerEvent)
| PointerUp
| ClickClear
| TypePrompt (v : string)
| SetBrush (size : Z).

Section Replay.
Variable strokeTo : Z -> option PointerEvent -> PointerEvent -> Canvas -> Canvas.

(** The Clear button is [disabled={!hasDrawn}]. *)
Definition step (ed : Editor) (x : EditorEvent) : Editor :=
  match x with
  | PointerDown e => startDrawing strokeTo ed e
  | PointerMove e => draw strokeTo ed e
  | PointerUp => stopDrawing ed
  | ClickClear => if hasDrawn ed then handleClear ed else ed
  | TypePrompt v => setPrompt v ed
  | SetBrush size =>
      mkEditor (canvas ed) (isDrawing ed) size (prompt ed) (hasDrawn ed)
               (path ed)
  end.

Definition replay (xs : list EditorEvent) (ed : Editor) : Editor :=
  fold_left step xs ed.

End Replay.

Definition opaque (p : Pixel) : Prop := alpha p = 255%Z.

(** The cleared canvas of an image of the given size. *)
Definition blank (w h : nat) : Canvas := clearRect (mkCanvas w h []).

(** The editor holds a canvas of the image's size, blank as long as
    nothing has been drawn since the last clear. *)
Definition well_kept (w h : nat) (ed : Editor) : Prop :=
  exists c, canvas ed = Some c /\ width c = w /\ height c = h
            /\ (hasDrawn ed = false -> c = blank w h).

(** With the pointer up the path of the context is empty:
    [stopDrawing] empties it, and [draw] touches it only with the
    pointer down. *)
Definition pen_lifted (ed : Editor) : Prop :=
  isDrawing ed = false -> path ed = None.

(** The canvas keeps its size under a stroke. *)
Definition keeps_size
    (strokeTo : Z -> option PointerEvent -> PointerEvent -> Canvas -> Canvas)
  : Prop :=
  forall b from e c,
    width (strokeTo b from e c) = width c
    /\ height (strokeTo b from e c) = height c.

(** A stroke used as a concrete case: a path of one point paints nothing,
    a segment paints the first pixel of the canvas. *)
Definition dab (b : Z) (from : option PointerEvent) (e : PointerEvent)
    (c : Canvas) : Canvas :=
  match from with
  | None => c
  | Some _ =>
      mkCanvas (width c) (height c)
        (match pixels c with
         | [] => []
         | _ :: rest => mkPixel 255 0 100 128 :: rest
         end)
  end.

End MaskSession.

(* ================================================================== *)
(** * Properties *)

(** ** The request builder *)

Module BuilderFacts.
Import geminiService.

Lemma getResolutionPrompt_clauses (resolution : string) (d : Z) :
  getResolutionPrompt resolution d =
  tier_clause resolution ++ " Ensure the image has "
  ++ (if (d <? 30)%Z then SOFT
      else if (d >? 70)%Z then HIGH_FIDELITY else BALANCED)
  ++ ".".
Proof.
  unfold getResolutionPrompt, tier_clause, SOFT, HIGH_FIDELITY, BALANCED.
  reflexivity.
Qed.

(** C7.  For a detail level [d] in 0..100 the builder's output is the
    clause of the resolution tier, which does not depend on [d], followed
    by the clause of the detail level, which does not depend on the tier:
    the soft clause below 30, the high-fidelity clause above 70 and the
    balanced clause from 30 to 70. *)
Theorem detail_thresholds (resolution : string) (d : Z) :
  (0 <= d <= 100)%Z ->
  ((d < 30)%Z ->
     getResolutionPrompt resolution d =
     tier_clause resolution ++ " Ensure the image has " ++ SOFT ++ ".")
  /\ ((d > 70)%Z ->
     getResolutionPrompt resolution d =
     tier_clause resolution ++ " Ensure the image has " ++ HIGH_FIDELITY ++ ".")
  /\ ((30 <= d <= 70)%Z ->
     getResolutionPrompt resolution d =
     tier_clause resolution ++ " Ensure the image has " ++ BALANCED ++ ".").
Proof.
  intros _. rewrite getResolutionPrompt_clauses.
  repeat split; intros H.
  - destruct (Z.ltb_spec d 30); [reflexivity | lia].
  - destruct (Z.ltb_spec d 30); [lia |].
    destruct (Z.gtb_spec d 70); [reflexivity | lia].
  - destruct (Z.ltb_spec d 30); [lia |].
    destruct (Z.gtb_spec d 70); [lia | reflexivity].
Qed.

Lemma detail_thresholds_witness :
  (0 <= 80 <= 100)%Z
  /\ getResolutionPrompt Resolution.HIGH 80 =
     tier_clause Resolution.HIGH ++ " Ensure the image has "
     ++ HIGH_FIDELITY ++ ".".
Proof.
  split; [lia |].
  apply (detail_thresholds Resolution.HIGH 80); lia.
Defined.

(** The three tiers have three different clauses. *)
Lemma tier_clause_values :
  tier_clause Resolution.STANDARD = "Standard resolution."
  /\ tier_clause Resolution.HIGH = "High quality, detailed, sharp focus."
  /\ tier_clause Resolution.ULTRA_4K =
     "4K resolution, ultra sharp, highly detailed, masterful quality.".
Proof. repeat split. Qed.

Ltac style_case s v :=
  destruct (String.eqb_spec s v) as [-> | ?];
  [ try reflexivity; try (exfalso; simpl in *; tauto) | ].

Lemma getStylePrompt_unknown (s : string) :
  ~ In s ImageStyle.values -> getStylePrompt s = REALISTIC_CLAUSE.
Proof.
  intros H. unfold getStylePrompt.
  style_case s ImageStyle.CINEMATIC.
  style_case s ImageStyle.VINTAGE.
  style_case s ImageStyle.PAINTING.
  style_case s ImageStyle.CYBER.
  style_case s ImageStyle.SKETCH.
  style_case s ImageStyle.STUDIO.
  style_case s ImageStyle.STEAMPUNK.
  style_case s ImageStyle.ART_DECO.
  style_case s ImageStyle.RETRO_FUTURISM.
  reflexivity.
Qed.

Lemma getStylePrompt_injective (a b : string) :
  In a ImageStyle.values -> In b ImageStyle.values ->
  getStylePrompt a = getStylePrompt b -> a = b.
Proof.
  unfold ImageStyle.values. simpl.
  intros Ha Hb.
  repeat (destruct Ha as [<- | Ha]; [ | ]); try contradiction;
    repeat (destruct Hb as [<- | Hb]; [ | ]); try contradiction;
    intros H; try reflexivity; vm_compute in H; discriminate H.
Qed.

(** C8.  [getStylePrompt] is a function on every tag, known or not, and
    its value is always the clause of some member of the enumeration; two
    different members never share a clause; the default member and every
    tag outside the enumeration get the realistic clause. *)
Theorem style_clause_mapping :
  (forall s, exists t, In t ImageStyle.values
                       /\ getStylePrompt s = getStylePrompt t)
  /\ (forall a b, In a ImageStyle.values -> In b ImageStyle.values ->
                  getStylePrompt a = getStylePrompt b -> a = b)
  /\ getStylePrompt ImageStyle.REALISTIC = REALISTIC_CLAUSE
  /\ (forall s, ~ In s ImageStyle.values ->
                getStylePrompt s = REALISTIC_CLAUSE).
Proof.
  split; [ | split; [ exact getStylePrompt_injective
                    | split; [ reflexivity | exact getStylePrompt_unknown ] ] ].
  intros s.
  destruct (in_dec string_dec s ImageStyle.values) as [Hin | Hout].
  - exists s. split; [ exact Hin | reflexivity ].
  - exists ImageStyle.REALISTIC. split; [ simpl; tauto | ].
    rewrite (getStylePrompt_unknown s Hout). reflexivity.
Qed.

Lemma style_clause_mapping_witness :
  getStylePrompt "Watercolor" = REALISTIC_CLAUSE
  /\ (getStylePrompt ImageStyle.STEAMPUNK = getStylePrompt ImageStyle.STEAMPUNK ->
      ImageStyle.STEAMPUNK = ImageStyle.STEAMPUNK).
Proof.
  destruct style_clause_mapping as (_ & Hinj & _ & Hunknown).
  split.
  - apply Hunknown. simpl. intros H.
    repeat (destruct H as [H | H]; [ discriminate H | ]). exact H.
  - apply Hinj; simpl; tauto.
Defined.

End BuilderFacts.

(* ================================================================== *)
(** ** Running asynchronous functions *)

Section RunFacts.
Context {St : Type}.

Lemma run_bind {A B} (remote : Remote) (p : Async St A) (f : A -> Async St B) :
  forall n s,
    run remote n (bind p f) s =
    let r1 := run remote n p s in
    let r2 := run remote (next r1) (f (value r1)) (final r1) in
    mkRan (value r2) (final r2) (next r2) (trace r1 ++ trace r2)%list.
Proof.
  induction p as [a | u k IH | q k IH]; intros n s; simpl.
  - destruct (run remote n (f a) s); reflexivity.
  - apply IH.
  - rewrite IH. reflexivity.
Qed.

Lemma run_modify (remote : Remote) (u : St -> St) n s :
  run remote n (modify u) s = mkRan tt (u s) n [].
Proof. reflexivity. Qed.

(** Whatever the function, its requests leave one at a time, each after
    the one before it has completed. *)
Lemma run_sequential {R} (remote : Remote) (p : Async St R) :
  forall n s, sequential n (trace (run remote n p s)).
Proof.
  induction p as [a | u k IH | q k IH]; intros n s; simpl.
  - exact I.
  - apply IH.
  - repeat split. apply IH.
Qed.

Lemma issued_app (t1 t2 : list (Event St)) :
  issued (t1 ++ t2) = (issued t1 ++ issued t2)%list.
Proof.
  induction t1 as [| [i q snap | i o] t1 IH]; simpl; [ reflexivity | | exact IH ].
  rewrite IH. reflexivity.
Qed.

End RunFacts.

(* ================================================================== *)
(** ** The batch pipeline and the session state machine *)

Module AppFacts.
Import geminiService App.

Local Open Scope nat_scope.

Lemma journey_loop_nil remote img env acc n s :
  run remote n (journey_loop img env [] acc) s = mkRan (acc, Normal tt) s n [].
Proof. reflexivity. Qed.

(** One turn of the loop whose call produced image data [d]. *)
Lemma journey_loop_ok remote img env e rest acc n s resp d :
  remote n (era_request img env e) = Normal resp ->
  image_of resp = Some d ->
  run remote n (journey_loop img env (e :: rest) acc) s =
  let acc' := (acc ++ [ mkResult (Era_value e)
                          ("data:image/png;base64," ++ d) ])%list in
  let r := run remote (S n) (journey_loop img env rest acc')
               (with_generatedResults acc' s) in
  mkRan (value r) (final r) (next r)
        (Issued n (era_request img env e) s :: Settled n (Normal resp)
           :: trace r).
Proof.
  intros Hr Hd. unfold era_request in Hr.
  cbn [journey_loop]. unfold timeTravel, processImage.
  cbn [bind run]. rewrite Hr, Hd. cbn [bind run value final next trace].
  unfold setGeneratedResults, modify. cbn [bind run].
  reflexivity.
Qed.

(** One turn of the loop whose call produced no image: the loop is left
    with the error of [processImage]. *)
Lemma journey_loop_fail remote img env e rest acc n s :
  fails (remote n (era_request img env e)) ->
  run remote n (journey_loop img env (e :: rest) acc) s =
  mkRan (acc, Thrown (mkError "Failed to generate image. Please try again."))
        s (S n)
        [ Issued n (era_request img env e) s;
          Settled n (remote n (era_request img env e)) ].
Proof.
  intros Hf. unfold era_request in *.
  cbn [journey_loop]. unfold timeTravel, processImage.
  cbn [bind run].
  destruct (remote n _) as [resp | err]; cbn [fails] in Hf.
  - rewrite Hf. reflexivity.
  - reflexivity.
Qed.

Lemma succeeds_inv o :
  succeeds o -> exists resp d, o = Normal resp /\ image_of resp = Some d.
Proof.
  destruct o as [resp | err]; cbn [succeeds]; intros H; [ | contradiction ].
  destruct (image_of resp) as [d |] eqn:E; [ | congruence ].
  exists resp, d. split; [ reflexivity | exact E ].
Qed.

Lemma succeeds_or_fails o : succeeds o \/ fails o.
Proof.
  destruct o as [resp | err]; cbn [succeeds fails]; [ | right; exact I ].
  destruct (image_of resp); [ left; discriminate | right; reflexivity ].
Qed.

Lemma succeeds_not_fails o : succeeds o -> fails o -> False.
Proof. destruct o; cbn [succeeds fails]; tauto. Qed.

Lemma k_then_failure_tail remote img env e rest n k :
  k_then_failure remote img env (e :: rest) n (S k) ->
  k_then_failure remote img env rest (S n) k.
Proof.
  intros (Hk & Hs & Hf). repeat split.
  - simpl in Hk. lia.
  - intros i e' Hi He. replace (S n + i) with (n + S i) by lia.
    apply Hs; [ lia | exact He ].
  - intros e' He. replace (S n + k) with (n + S k) by lia.
    apply Hf. exact He.
Qed.

(** The loop after [k] successes: what it hands back, where it leaves the
    store, and what it sent. *)
Lemma journey_loop_run remote img env :
  forall eras k n acc s,
    k_then_failure remote img env eras n k ->
    let r := run remote n (journey_loop img env eras acc) s in
    length (fst (value r)) = length acc + k
    /\ (k = 0 -> fst (value r) = acc)
    /\ map era (fst (value r))
       = (map era acc ++ map Era_value (firstn k eras))%list
    /\ (k = length eras -> snd (value r) = Normal tt)
    /\ (k < length eras ->
        snd (value r)
        = Thrown (mkError "Failed to generate image. Please try again."))
    /\ final r = match k with
                 | 0 => s
                 | S _ => with_generatedResults (fst (value r)) s
                 end
    /\ issued (trace r) = map (era_request img env) (firstn (S k) eras).
Proof.
  induction eras as [| e rest IH]; intros k n acc s Hk r.
  - destruct Hk as (Hle & _ & _). simpl in Hle.
    assert (k = 0) by lia. subst k. subst r.
    rewrite journey_loop_nil. cbn.
    rewrite app_nil_r. repeat split; try lia.
  - destruct k as [| k].
    + destruct Hk as (_ & _ & Hf).
      specialize (Hf e eq_refl). rewrite Nat.add_0_r in Hf.
      subst r. rewrite (journey_loop_fail _ _ _ _ _ _ _ _ Hf). cbn.
      rewrite app_nil_r. repeat split; try lia.
    + pose proof Hk as (_ & Hs & _).
      specialize (Hs 0 e ltac:(lia) eq_refl). rewrite Nat.add_0_r in Hs.
      destruct (succeeds_inv _ Hs) as (resp & d & Hr & Hd).
      apply k_then_failure_tail in Hk.
      subst r. rewrite (journey_loop_ok _ _ _ _ _ _ _ _ _ _ Hr Hd).
      cbv zeta.
      set (acc' := (acc ++ _)%list).
      specialize (IH k (S n) acc' (with_generatedResults acc' s) Hk).
      cbv zeta in IH.
      destruct IH as (Hlen & Hzero & Hmap & Hnorm & Hthrow & Hfin & Hiss).
      cbn [value final next trace issued].
      repeat split.
      * rewrite Hlen. subst acc'. rewrite length_app. simpl. lia.
      * intros H. discriminate H.
      * rewrite Hmap. subst acc'. rewrite map_app, <- app_assoc.
        reflexivity.
      * intros H. apply Hnorm. simpl in H. lia.
      * intros H. apply Hthrow. simpl in H. lia.
      * rewrite Hfin. destruct k; [ | reflexivity ].
        rewrite (Hzero eq_refl). reflexivity.
      * rewrite Hiss. reflexivity.
Qed.

Lemma k_then_failure_exists remote img env :
  forall eras n, exists k, k_then_failure remote img env eras n k.
Proof.
  induction eras as [| e rest IH]; intros n.
  - exists 0. repeat split; [ simpl; lia | intros; lia | ].
    intros e H. discriminate H.
  - destruct (succeeds_or_fails (remote n (era_request img env e))) as [Hs | Hf].
    + destruct (IH (S n)) as (k & Hk & Hsucc & Hfail).
      exists (S k). repeat split.
      * simpl. lia.
      * intros [| i] e' Hi He; simpl in He.
        -- injection He as <-. rewrite Nat.add_0_r. exact Hs.
        -- replace (n + S i) with (S n + i) by lia.
           apply Hsucc; [ lia | exact He ].
      * intros e' He. simpl in He.
        replace (n + S k) with (S n + k) by lia. apply Hfail. exact He.
    + exists 0. repeat split; [ simpl; lia | intros; lia | ].
      intros e' He. injection He as <-. rewrite Nat.add_0_r. exact Hf.
Qed.

(** When request [i] of the loop leaves, the store shows the results of
    the items before it, in their order, and nothing else has changed. *)
Lemma journey_loop_snapshots remote img env :
  forall eras n acc s,
    generatedResults s = acc ->
    forall i q snap,
      In (Issued i q snap)
         (trace (run remote n (journey_loop img env eras acc) s)) ->
      n <= i
      /\ with_generatedResults [] snap = with_generatedResults [] s
      /\ map era (generatedResults snap)
         = (map era acc ++ map Era_value (firstn (i - n) eras))%list.
Proof.
  induction eras as [| e rest IH]; intros n acc s Hacc i q snap Hin.
  - rewrite journey_loop_nil in Hin. destruct Hin.
  - assert (Hhere : Issued n (era_request img env e) s = Issued i q snap ->
                    n <= i
                    /\ with_generatedResults [] snap = with_generatedResults [] s
                    /\ map era (generatedResults snap)
                       = (map era acc
                            ++ map Era_value (firstn (i - n) (e :: rest)))%list).
    { intros H. injection H as <- <- <-.
      rewrite Nat.sub_diag, Hacc. cbn. rewrite app_nil_r.
      repeat split. lia. }
    destruct (succeeds_or_fails (remote n (era_request img env e))) as [Hs | Hf].
    + destruct (succeeds_inv _ Hs) as (resp & d & Hr & Hd).
      rewrite (journey_loop_ok _ _ _ _ _ _ _ _ _ _ Hr Hd) in Hin.
      cbv zeta in Hin. cbn [trace] in Hin.
      destruct Hin as [H | [H | Hin]]; [ exact (Hhere H) | discriminate H | ].
      apply IH in Hin; [ | reflexivity ].
      destruct Hin as (Hle & Hsame & Hmap).
      repeat split; [ lia | exact Hsame | ].
      rewrite Hmap, map_app, <- app_assoc.
      replace (i - n) with (S (i - S n)) by lia. reflexivity.
    + rewrite (journey_loop_fail _ _ _ _ _ _ _ _ Hf) in Hin.
      cbn [trace] in Hin.
      destruct Hin as [H | [H | []]]; [ exact (Hhere H) | discriminate H ].
Qed.

(** [handleStartJourney] with an image and at least one era: the setter
    calls before the loop, the loop, and the branch taken on how the loop
    completed. *)
Lemma handleStartJourney_run remote env eras s img :
  present (capturedImage env) = Some img ->
  1 <= length eras ->
  let r := run remote 0 (journey_loop img env eras [])
               (begin_run PROCESSING s) in
  run remote 0 (handleStartJourney env eras) s =
  mkRan tt
    (match snd (value r) with
     | Normal _ => with_state RESULT (final r)
     | Thrown e =>
         with_state (if 0 <? length (fst (value r)) then RESULT else PREVIEW)
           (with_error (Some (message_or e "Failed during time travel."))
                       (final r))
     end)
    (next r) (trace r).
Proof.
  intros Himg Hlen r. unfold handleStartJourney. rewrite Himg.
  destruct eras as [| e0 rest0]; [ simpl in Hlen; lia | ].
  unfold setState, setError, setGeneratedResults, setActiveIndex,
    setActiveFilter, modify.
  cbn [bind run]. rewrite run_bind. cbv zeta.
  fold (begin_run PROCESSING s). fold r.
  destruct (snd (value r)) as [u | err].
  - cbn. rewrite app_nil_r. reflexivity.
  - cbn [bind]. destruct (0 <? length (fst (value r))); cbn;
      rewrite app_nil_r; reflexivity.
Qed.

Lemma map_eq_nth_error {A B C} (f : A -> C) (g : B -> C) :
  forall (l : list A) (l' : list B) i,
    map f l = map g l' -> i < length l' ->
    exists a b, nth_error l i = Some a /\ nth_error l' i = Some b
                /\ f a = g b.
Proof.
  induction l as [| a l IH]; intros [| b l'] i H Hi; simpl in *;
    try discriminate; try lia.
  injection H as Hab Hrest.
  destruct i as [| i].
  - exists a, b. repeat split. exact Hab.
  - simpl. apply IH; [ exact Hrest | lia ].
Qed.



(** C2.  In a batch run the requests leave one at a time, request [i+1]
    only after request [i] has completed; they are the requests of the
    eras in the order given, up to and including the first one that
    fails; when request [i] leaves, the store already shows the results
    of the [i] items before it; and result [i] of the final store carries
    the label of era [i], for every [i] below the number [k] of successful
    items. *)
Theorem batch_sequential_in_order remote s img eras k :
  present (capturedImage s) = Some img ->
  1 <= length eras ->
  k_then_failure remote img s eras 0 k ->
  let r := run remote 0 (handleStartJourney s eras) s in
  sequential 0 (trace r)
  /\ issued (trace r) = map (era_request img s) (firstn (S k) eras)
  /\ (forall i q snap, In (Issued i q snap) (trace r) ->
        map era (generatedResults snap) = map Era_value (firstn i eras))
  /\ length (generatedResults (final r)) = k
  /\ (forall i, i < k ->
        exists res e, nth_error (generatedResults (final r)) i = Some res
                      /\ nth_error eras i = Some e
                      /\ era res = Era_value e).
Proof.
  intros Himg Hlen Hk r.
  assert (Hseq : sequential 0 (trace r)) by apply run_sequential.
  subst r.
  rewrite (handleStartJourney_run remote s eras s img Himg Hlen) in *.
  cbv zeta in *.
  destruct (journey_loop_run remote img s eras k 0 [] (begin_run PROCESSING s) Hk)
    as (Hl & Hz & Hmap & _ & _ & Hfin & Hiss).
  cbv zeta in Hl, Hz, Hmap, Hfin, Hiss.
  pose proof (journey_loop_snapshots remote img s eras 0 []
                (begin_run PROCESSING s) eq_refl) as Hsnap.
  set (r := run remote 0 (journey_loop img s eras []) (begin_run PROCESSING s)) in *.
  cbn [trace final] in *. simpl in Hl, Hmap.
  assert (Hres : map era
                   (generatedResults
                      (match snd (value r) with
                       | Normal _ => with_state RESULT (final r)
                       | Thrown e =>
                           with_state
                             (if 0 <? length (fst (value r))
                              then RESULT else PREVIEW)
                             (with_error
                                (Some (message_or e "Failed during time travel."))
                                (final r))
                       end))
                 = map Era_value (firstn k eras)).
  { assert (Hg : generatedResults (final r) = fst (value r)).
    { rewrite Hfin. destruct k; [ | reflexivity ].
      rewrite (Hz eq_refl). reflexivity. }
    destruct (snd (value r)); cbn; rewrite Hg; exact Hmap. }
  split; [ exact Hseq | ].
  split; [ exact Hiss | ].
  split.
  { intros i q snap Hin. apply Hsnap in Hin.
    destruct Hin as (_ & _ & H). rewrite Nat.sub_0_r in H. exact H. }
  destruct Hk as (Hle & _ & _).
  split.
  { apply (f_equal (@length _)) in Hres.
    rewrite !length_map, firstn_length_le in Hres by exact Hle. exact Hres. }
  intros i Hi.
  destruct (map_eq_nth_error era Era_value _ _ i Hres) as (a & b & Ha & Hb & Hab).
  { rewrite firstn_length_le by exact Hle. exact Hi. }
  exists a, b. repeat split; [ exact Ha | | exact Hab ].
  rewrite nth_error_firstn in Hb.
  destruct (Nat.ltb_spec i k); [ exact Hb | lia ].
Qed.

Lemma batch_sequential_in_order_witness :
  let r := run Scenario.first_only 0
             (handleStartJourney Scenario.captured [ VIKING; CYBERPUNK ])
             Scenario.captured in
  sequential 0 (trace r)
  /\ issued (trace r)
     = map (era_request "data:image/jpeg;base64,/9j/4AAQSkZJRg=="
                        Scenario.captured)
           (firstn 2 [ VIKING; CYBERPUNK ])
  /\ (forall i q snap, In (Issued i q snap) (trace r) ->
        map era (generatedResults snap)
        = map Era_value (firstn i [ VIKING; CYBERPUNK ]))
  /\ length (generatedResults (final r)) = 1
  /\ (forall i, i < 1 ->
        exists res e, nth_error (generatedResults (final r)) i = Some res
                      /\ nth_error [ VIKING; CYBERPUNK ] i = Some e
                      /\ era res = Era_value e).
Proof.
  apply (batch_sequential_in_order Scenario.first_only Scenario.captured
           "data:image/jpeg;base64,/9j/4AAQSkZJRg==" [ VIKING; CYBERPUNK ] 1).
  - reflexivity.
  - simpl. lia.
  - unfold k_then_failure. split; [ | split ].
    + simpl. lia.
    + intros [| i] e Hi He; [ simpl; discriminate | lia ].
    + intros e He. reflexivity.
Defined.

(** The two batch scenarios of the design document. *)
Lemma scenario_partial_failure :
  Scenario.partial_failure
  = mkSession RESULT (Some Scenario.photo)
      [ mkResult "Viking Age" "data:image/png;base64,iVBORw0KGgo=" ] 0 None
      (Some "Failed to generate image. Please try again.")
      ImageStyle.CINEMATIC Resolution.ULTRA_4K 25 EmptyString "none".
Proof. reflexivity. Qed.

Lemma scenario_total_failure :
  dispatch Scenario.never_image (StartJourney [ VIKING; CYBERPUNK ])
           Scenario.captured
  = mkSession PREVIEW (Some Scenario.photo) [] 0 None
      (Some "Failed to generate image. Please try again.")
      ImageStyle.CINEMATIC Resolution.ULTRA_4K 25 EmptyString "none".
Proof. reflexivity. Qed.

(** *** The single-item handlers *)

Lemma handleCustomEdit_run remote env s img prompt :
  present (capturedImage env) = Some img ->
  let q := edit_request img prompt (selectedStyle env)
                        (selectedResolution env) (detailLevel env) in
  let s0 := begin_run PROCESSING s in
  run remote 0 (handleCustomEdit env prompt) s =
  mkRan tt
    (match remote 0 q with
     | Normal response =>
         match image_of response with
         | Some d =>
             with_state RESULT
               (with_generatedResults
                  [ mkResult "Custom Reality" ("data:image/png;base64," ++ d) ]
                  s0)
         | None =>
             with_state PREVIEW (with_error (Some GENERATION_FAILED) s0)
         end
     | Thrown _ => with_state PREVIEW (with_error (Some GENERATION_FAILED) s0)
     end)
    1 [ Issued 0 q s0; Settled 0 (remote 0 q) ].
Proof.
  intros Himg q s0. unfold handleCustomEdit. rewrite Himg.
  unfold setState, setError, setGeneratedResults, setActiveIndex,
    setActiveFilter, modify, customEdit, processImage.
  subst q s0. unfold edit_request, mask_request. cbn [bind run].
  destruct (remote 0 _) as [response | err]; [ | reflexivity ].
  destruct (image_of response); reflexivity.
Qed.

Lemma handleMagicEditProcess_run remote env s img maskImage prompt :
  present (capturedImage env) = Some img ->
  let q := mask_request img maskImage prompt in
  let s0 := begin_run PROCESSING s in
  run remote 0 (handleMagicEditProcess env maskImage prompt) s =
  mkRan tt
    (match remote 0 q with
     | Normal response =>
         match image_of response with
         | Some d =>
             with_state RESULT
               (with_generatedResults
                  [ mkResult "Magic Edit" ("data:image/png;base64," ++ d) ]
                  s0)
         | None =>
             with_state PREVIEW
               (with_error (Some "Failed to edit image. Please try again.") s0)
         end
     | Thrown _ =>
         with_state PREVIEW
           (with_error (Some "Failed to edit image. Please try again.") s0)
     end)
    1 [ Issued 0 q s0; Settled 0 (remote 0 q) ].
Proof.
  intros Himg q s0. unfold handleMagicEditProcess. rewrite Himg.
  unfold setState, setError, setGeneratedResults, setActiveIndex,
    setActiveFilter, modify, magicEdit.
  subst q s0. unfold edit_request, mask_request. cbn [bind run].
  destruct (remote 0 _) as [response | err]; [ | reflexivity ].
  destruct (image_of response); reflexivity.
Qed.

Lemma handleRestore_run remote env s img :
  present (capturedImage env) = Some img ->
  let qa := analysis_request img DAMAGE in
  let s0 := begin_run RESTORE s in
  let failed m := with_state PREVIEW (with_error (Some m) s0) in
  run remote 0 (handleRestore env) s =
  match remote 0 qa with
  | Thrown _ =>
      mkRan tt (failed "Failed to analyze image. Please try again.") 1
            [ Issued 0 qa s0; Settled 0 (remote 0 qa) ]
  | Normal a =>
      let qr := edit_request img (restorationPrompt (report_of a))
                  ImageStyle.REALISTIC Resolution.HIGH 80 in
      mkRan tt
        (match remote 1 qr with
         | Normal response =>
             match image_of response with
             | Some d =>
                 with_state RESULT
                   (with_generatedResults
                      [ mkResult "Restored Photo"
                          ("data:image/png;base64," ++ d) ] s0)
             | None => failed GENERATION_FAILED
             end
         | Thrown _ => failed GENERATION_FAILED
         end)
        2 [ Issued 0 qa s0; Settled 0 (Normal a);
            Issued 1 qr s0; Settled 1 (remote 1 qr) ]
  end.
Proof.
  intros Himg qa s0 failed. unfold handleRestore. rewrite Himg.
  unfold setState, setError, setGeneratedResults, setActiveIndex,
    setActiveFilter, modify, analyzeImage, customEdit, processImage.
  subst qa s0 failed. unfold analysis_request. cbn [bind run].
  destruct (remote 0 _) as [a | err]; [ | reflexivity ].
  cbn [bind run value final next trace]. cbv zeta.
  unfold edit_request, report_of.
  destruct (remote 1 _) as [response | err]; [ | reflexivity ].
  destruct (image_of response); reflexivity.
Qed.

Lemma handleAnalyze_run remote env s img :
  present (capturedImage env) = Some img ->
  let q := analysis_request img CONTEXT in
  let s0 := with_error None (with_state PROCESSING s) in
  run remote 0 (handleAnalyze env) s =
  mkRan tt
    (match remote 0 q with
     | Normal a => with_state PREVIEW (with_analysisText (Some (report_of a)) s0)
     | Thrown _ =>
         with_state PREVIEW
           (with_error (Some "Failed to analyze image. Please try again.") s0)
     end)
    1 [ Issued 0 q s0; Settled 0 (remote 0 q) ].
Proof.
  intros Himg q s0. unfold handleAnalyze. rewrite Himg.
  unfold setState, setError, setAnalysisText, modify, analyzeImage.
  subst q s0. unfold analysis_request. cbn [bind run].
  destruct (remote 0 _) as [a | err]; reflexivity.
Qed.

(** The terminal-success rule for the custom edit, a batch of one. *)
Lemma handleCustomEdit_outcome remote s img prompt :
  present (capturedImage s) = Some img ->
  let o := remote 0 (edit_request img prompt (selectedStyle s)
                       (selectedResolution s) (detailLevel s)) in
  let s' := final (run remote 0 (handleCustomEdit s prompt) s) in
  (succeeds o ->
     length (generatedResults s') = 1 /\ state s' = RESULT /\ error s' = None)
  /\ (fails o ->
     generatedResults s' = [] /\ state s' = PREVIEW /\ error s' <> None).
Proof.
  intros Himg o s'. subst s'.
  rewrite (handleCustomEdit_run remote s s img prompt Himg). cbv zeta.
  fold o. cbn [final].
  destruct o as [response | err]; cbn [succeeds fails].
  - destruct (image_of response); split; intros H; try congruence;
      cbn; repeat split; congruence.
  - split; [ contradiction | ]. intros _. cbn. repeat split. congruence.
Qed.

(** The same rule for the masked edit. *)
Lemma handleMagicEditProcess_outcome remote s img maskImage prompt :
  present (capturedImage s) = Some img ->
  let o := remote 0 (mask_request img maskImage prompt) in
  let s' := final (run remote 0 (handleMagicEditProcess s maskImage prompt) s) in
  (succeeds o ->
     length (generatedResults s') = 1 /\ state s' = RESULT /\ error s' = None)
  /\ (fails o ->
     generatedResults s' = [] /\ state s' = PREVIEW /\ error s' <> None).
Proof.
  intros Himg o s'. subst s'.
  rewrite (handleMagicEditProcess_run remote s s img maskImage prompt Himg).
  cbv zeta. fold o. cbn [final].
  destruct o as [response | err]; cbn [succeeds fails].
  - destruct (image_of response); split; intros H; try congruence;
      cbn; repeat split; congruence.
  - split; [ contradiction | ]. intros _. cbn. repeat split. congruence.
Qed.

(** The same rule for the restoration: it ends in RESULT with one result,
    or in PREVIEW with none and the error set. *)
Lemma handleRestore_outcome remote s img :
  present (capturedImage s) = Some img ->
  let s' := final (run remote 0 (handleRestore s) s) in
  (length (generatedResults s') = 1 /\ state s' = RESULT /\ error s' = None)
  \/ (generatedResults s' = [] /\ state s' = PREVIEW /\ error s' <> None).
Proof.
  intros Himg s'. subst s'.
  rewrite (handleRestore_run remote s s img Himg). cbv zeta.
  destruct (remote 0 _) as [a | err]; cbn [final].
  - destruct (remote 1 _) as [response | err].
    + destruct (image_of response); [ left | right ]; cbn;
        repeat split; congruence.
    + right. cbn. repeat split. congruence.
  - right. cbn. repeat split. congruence.
Qed.

(** C10.  Whatever style, resolution and detail level the session holds,
    the restoration flow sends the damage analysis and then, when the
    analysis came back, one transformation request built with the style
    Photorealistic, the tier High Quality and the detail level 80; a
    session that differs only in the three settings runs the same flow. *)
Theorem restore_fixed_configuration remote env s img :
  present (capturedImage env) = Some img ->
  issued (trace (run remote 0 (handleRestore env) s))
  = match remote 0 (analysis_request img DAMAGE) with
    | Normal a =>
        [ analysis_request img DAMAGE;
          restoration_request img (report_of a) ]
    | Thrown _ => [ analysis_request img DAMAGE ]
    end
  /\ (forall damageReport,
        restoration_request img damageReport
        = edit_request img (restorationPrompt damageReport)
            ImageStyle.REALISTIC Resolution.HIGH 80)
  /\ forall style resolution detail,
       handleRestore
         (with_selectedStyle style
            (with_selectedResolution resolution
               (with_detailLevel detail env)))
       = handleRestore env.
Proof.
  intros Himg. split; [ | split ].
  - rewrite (handleRestore_run remote env s img Himg). cbv zeta.
    destruct (remote 0 _) as [a | err]; reflexivity.
  - intros damageReport. reflexivity.
  - intros style resolution detail. reflexivity.
Qed.

Lemma restore_fixed_configuration_witness :
  issued (trace (run Scenario.always_image 0
                   (handleRestore Scenario.captured) Scenario.captured))
  = [ analysis_request "data:image/jpeg;base64,/9j/4AAQSkZJRg==" DAMAGE;
      restoration_request "data:image/jpeg;base64,/9j/4AAQSkZJRg=="
                          "No analysis available." ].
Proof.
  apply (restore_fixed_configuration Scenario.always_image Scenario.captured
           Scenario.captured "data:image/jpeg;base64,/9j/4AAQSkZJRg==").
  reflexivity.
Defined.

(** *** Entering PROCESSING and RESTORE *)

Lemma visit_reachable steps :
  forall s, reachable s -> reachable (visit steps s).
Proof.
  induction steps as [| [remote a] rest IH]; intros s Hs; simpl.
  - exact Hs.
  - destruct (enabled a s) eqn:He; apply IH; [ | exact Hs ].
    apply reachable_dispatch; assumption.
Qed.

(** C4 (the code at the failing input).  After a finished batch and a
    step back to the preview the analysis is enabled; its request leaves
    with the session in PROCESSING, the error cleared and the result of
    the earlier batch still in the store, so the loading screen of the
    analysis reads "Materializing Era 1...": the transition into
    PROCESSING has not cleared the results.  From the same session the
    restoration does clear them before its first request. *)
Theorem analyze_enters_processing_with_results :
  let s := Scenario.back_in_preview in
  reachable s /\ state s = PREVIEW /\ enabled Analyze s = true
  /\ (exists snap rest,
        trace (run Scenario.always_image 0 (handler Analyze s) s)
        = Issued 0 (analysis_request Scenario.photo CONTEXT) snap :: rest
        /\ state snap = PROCESSING /\ error snap = None
        /\ generatedResults snap
           = [ mkResult "Viking Age" "data:image/png;base64,iVBORw0KGgo=" ]
        /\ AppView.loadingStatus false snap = "Materializing Era 1...")
  /\ ~ clears_on_entry Scenario.always_image Analyze s
  /\ (exists snap rest,
        trace (run Scenario.always_image 0 (handler Restore s) s)
        = Issued 0 (analysis_request Scenario.photo DAMAGE) snap :: rest
        /\ state snap = RESTORE /\ error snap = None
        /\ generatedResults snap = [] /\ activeIndex snap = 0).
Proof.
  cbv zeta. split; [ | split; [ | split; [ | split; [ | split ] ] ] ].
  - apply visit_reachable. apply reachable_initial.
  - reflexivity.
  - reflexivity.
  - eexists. eexists. split; [ reflexivity | ]. repeat split.
  - intros H.
    destruct (H (analysis_request Scenario.photo CONTEXT)
                (with_error None (with_state PROCESSING Scenario.back_in_preview)))
      as [_ Hres].
    + left. reflexivity.
    + left. reflexivity.
    + discriminate Hres.
  - eexists. eexists. split; [ reflexivity | ]. repeat split.
Qed.

Ltac no_request H := cbn in H; contradiction.

(** What the handlers do clear.  Whenever a request of an enabled action
    leaves with the session in PROCESSING or RESTORE, the error is
    cleared.  For the batch, the custom edit, the restoration and the mask
    confirmation the first request leaves with the results empty and the
    index at 0.  The analysis leaves the results as they were. *)
Lemma entry_clears remote a s i q snap :
  enabled a s = true ->
  In (Issued i q snap) (trace (run remote 0 (handler a s) s)) ->
  state snap = PROCESSING \/ state snap = RESTORE ->
  error snap = None
  /\ (a = Analyze -> generatedResults snap = generatedResults s)
  /\ (a <> Analyze -> i = 0 ->
      generatedResults snap = [] /\ activeIndex snap = 0).
Proof.
  intros He Hin Hphase.
  destruct a; cbn [handler] in Hin;
    try (no_request Hin).
  - (* Analyze *)
    destruct (present (capturedImage s)) as [img |] eqn:Himg.
    + rewrite (handleAnalyze_run remote s s img Himg) in Hin.
      cbv zeta in Hin. cbn [trace] in Hin.
      destruct Hin as [H | [H | []]]; [ | discriminate H ].
      injection H as <- <- <-.
      split; [ reflexivity | split; [ intros _; reflexivity | ] ].
      intros Hne. contradiction Hne. reflexivity.
    + unfold handleAnalyze in Hin. rewrite Himg in Hin. no_request Hin.
  - (* GeneratePrompt *)
    unfold enabled in He.
    destruct (state s) eqn:Hst; try discriminate He.
    unfold handleGeneratePrompt, generateCreativePrompt in Hin.
    destruct (present (capturedImage s)); [ | no_request Hin ].
    cbn [bind run trace] in Hin.
    destruct Hin as [H | [H | Hin]]; [ | discriminate H | ].
    * injection H as <- <- <-.
      destruct Hphase as [H | H]; rewrite Hst in H; discriminate H.
    * destruct (remote 0 _); no_request Hin.
  - (* Restore *)
    destruct (present (capturedImage s)) as [img |] eqn:Himg.
    + rewrite (handleRestore_run remote s s img Himg) in Hin.
      cbv zeta in Hin.
      destruct (remote 0 _) as [r | err]; cbn [trace] in Hin.
      * destruct Hin as [H | [H | [H | [H | []]]]]; try discriminate H;
          injection H as <- <- <-;
          (split; [ reflexivity | split; [ discriminate | ] ]);
          intros _ _; split; reflexivity.
      * destruct Hin as [H | [H | []]]; try discriminate H;
          injection H as <- <- <-;
          (split; [ reflexivity | split; [ discriminate | ] ]);
          intros _ _; split; reflexivity.
    + unfold handleRestore in Hin. rewrite Himg in Hin. no_request Hin.
  - (* StartJourney *)
    unfold enabled in He.
    destruct (state s) eqn:Hst; try discriminate He.
    apply Nat.ltb_lt in He.
    destruct (present (capturedImage s)) as [img |] eqn:Himg.
    + rewrite (handleStartJourney_run remote s eras s img Himg He) in Hin.
      cbv zeta in Hin. cbn [trace] in Hin.
      apply (journey_loop_snapshots remote img s eras 0 []
               (begin_run PROCESSING s) eq_refl) in Hin.
      destruct Hin as (_ & Hsame & Hmap).
      split; [ | split ].
      * apply (f_equal error) in Hsame. exact Hsame.
      * intros H; discriminate H.
      * intros _ ->. split.
        -- cbn in Hmap. apply map_eq_nil in Hmap. exact Hmap.
        -- apply (f_equal activeIndex) in Hsame. exact Hsame.
    + unfold handleStartJourney in Hin. rewrite Himg in Hin. no_request Hin.
  - (* CustomEdit *)
    destruct (present (capturedImage s)) as [img |] eqn:Himg.
    + rewrite (handleCustomEdit_run remote s s img _ Himg) in Hin.
      cbv zeta in Hin. cbn [trace] in Hin.
      destruct Hin as [H | [H | []]]; [ | discriminate H ].
      injection H as <- <- <-.
      split; [ reflexivity | split; [ discriminate | ] ].
      intros _ _. split; reflexivity.
    + unfold handleCustomEdit in Hin. rewrite Himg in Hin. no_request Hin.
  - (* ConfirmMask *)
    destruct (present (capturedImage s)) as [img |] eqn:Himg.
    + rewrite (handleMagicEditProcess_run remote s s img _ _ Himg) in Hin.
      cbv zeta in Hin. cbn [trace] in Hin.
      destruct Hin as [H | [H | []]]; [ | discriminate H ].
      injection H as <- <- <-.
      split; [ reflexivity | split; [ discriminate | ] ].
      intros _ _. split; reflexivity.
    + unfold handleMagicEditProcess in Hin. rewrite Himg in Hin.
      no_request Hin.
Qed.

(** *** Reset, capture and the result index *)

Lemma reset_run remote s :
  dispatch remote Reset s
  = with_customPrompt EmptyString
      (with_activeFilter "none"
         (with_state HOME
            (with_analysisText None
               (with_generatedResults [] (with_capturedImage None s))))).
Proof. reflexivity. Qed.

(** What [reset] does and does not touch. *)
Lemma reset_effect remote s :
  let s' := dispatch remote Reset s in
  capturedImage s' = None /\ generatedResults s' = [] /\ state s' = HOME
  /\ analysisText s' = None /\ error s' = error s
  /\ activeIndex s' = activeIndex s.
Proof. rewrite reset_run. repeat split. Qed.

Lemma handleCapture_effect remote imageSrc s :
  let s' := dispatch remote (Capture imageSrc) s in
  capturedImage s' = imageSrc /\ generatedResults s' = []
  /\ state s' = PREVIEW /\ error s' = None
  /\ activeIndex s' = activeIndex s.
Proof. repeat split. Qed.

(** C3 (the code at the failing input).  The partial failure of the
    design document's scenario ends in RESULT with the error set; [reset]
    from there clears the image and the results and goes to HOME, and the
    error is still set. *)
Theorem reset_from_result_keeps_error :
  let s := Scenario.partial_failure in
  let s' := dispatch Scenario.always_image Reset s in
  reachable s /\ state s = RESULT /\ enabled Reset s = true
  /\ capturedImage s' = None /\ generatedResults s' = [] /\ state s' = HOME
  /\ error s' = Some GENERATION_FAILED.
Proof.
  cbv zeta. split.
  - apply visit_reachable. apply reachable_initial.
  - repeat split.
Qed.

(** C5 (the code at the failing input).  With two results and the second
    one selected, [reset] empties the results and leaves the index at 1:
    a reachable session in which the index is not below
    [max(1, len(results))]; a capture after it does not repair it. *)
Theorem reset_leaves_index_stale :
  let s := dispatch Scenario.always_image Reset
             Scenario.second_result_selected in
  let s' := visit [ (Scenario.always_image, StartApp);
                    (Scenario.always_image, Capture (Some Scenario.photo)) ] s in
  reachable s /\ generatedResults s = [] /\ activeIndex s = 1
  /\ ~ index_in_range s
  /\ reachable s' /\ state s' = PREVIEW /\ ~ index_in_range s'.
Proof.
  cbv zeta.
  assert (Hr : reachable (dispatch Scenario.always_image Reset
                            Scenario.second_result_selected)).
  { apply reachable_dispatch; [ | reflexivity ].
    apply visit_reachable. apply reachable_initial. }
  repeat split.
  - exact Hr.
  - unfold index_in_range. cbn. lia.
  - apply visit_reachable. exact Hr.
  - unfold index_in_range. cbn. lia.
Qed.

(** What every reachable session does satisfy: when there are results,
    the index points at one of them. *)
Lemma dispatch_index_valid remote a s :
  enabled a s = true ->
  index_valid_when_results s ->
  index_valid_when_results (dispatch remote a s).
Proof.
  intros He Hs. unfold dispatch.
  destruct a; cbn [handler];
    try (exact Hs); try (left; reflexivity).
  - (* Analyze *)
    destruct (present (capturedImage s)) as [img |] eqn:Himg.
    + rewrite (handleAnalyze_run remote s s img Himg). cbv zeta.
      destruct (remote 0 _); exact Hs.
    + unfold handleAnalyze. rewrite Himg. exact Hs.
  - (* GeneratePrompt *)
    unfold handleGeneratePrompt, generateCreativePrompt.
    destruct (present (capturedImage s)); [ | exact Hs ].
    cbn [bind run final]. destruct (remote 0 _); exact Hs.
  - (* Restore *)
    destruct (present (capturedImage s)) as [img |] eqn:Himg.
    + rewrite (handleRestore_run remote s s img Himg). cbv zeta.
      destruct (remote 0 _) as [r | err]; [ | left; reflexivity ].
      cbn [final].
      destruct (remote 1 _) as [response | err]; [ | left; reflexivity ].
      destruct (image_of response); [ right; cbn; lia | left; reflexivity ].
    + unfold handleRestore. rewrite Himg. exact Hs.
  - (* StartJourney *)
    unfold enabled in He.
    destruct (state s) eqn:Hst; try discriminate He.
    apply Nat.ltb_lt in He.
    destruct (present (capturedImage s)) as [img |] eqn:Himg.
    + rewrite (handleStartJourney_run remote s eras s img Himg He).
      cbv zeta. cbn [final].
      destruct (k_then_failure_exists remote img s eras 0) as (k & Hk).
      destruct (journey_loop_run remote img s eras k 0 []
                  (begin_run PROCESSING s) Hk)
        as (Hl & Hz & _ & _ & _ & Hfin & _).
      cbv zeta in Hl, Hz, Hfin.
      set (r := run remote 0 (journey_loop img s eras [])
                    (begin_run PROCESSING s)) in *.
      assert (Hidx : activeIndex (final r) = 0)
        by (rewrite Hfin; destruct k; reflexivity).
      assert (Hv : index_valid_when_results (final r)).
      { unfold index_valid_when_results. rewrite Hidx.
        destruct (generatedResults (final r)); [ left; reflexivity | ].
        right. simpl. lia. }
      destruct (snd (value r)); [ exact Hv | ].
      destruct (0 <? length (fst (value r))); exact Hv.
    + unfold handleStartJourney. rewrite Himg. exact Hs.
  - (* CustomEdit *)
    destruct (present (capturedImage s)) as [img |] eqn:Himg.
    + rewrite (handleCustomEdit_run remote s s img _ Himg). cbv zeta.
      cbn [final].
      destruct (remote 0 _) as [response | err]; [ | left; reflexivity ].
      destruct (image_of response); [ right; cbn; lia | left; reflexivity ].
    + unfold handleCustomEdit. rewrite Himg. exact Hs.
  - (* ConfirmMask *)
    destruct (present (capturedImage s)) as [img |] eqn:Himg.
    + rewrite (handleMagicEditProcess_run remote s s img _ _ Himg).
      cbv zeta. cbn [final].
      destruct (remote 0 _) as [response | err]; [ | left; reflexivity ].
      destruct (image_of response); [ right; cbn; lia | left; reflexivity ].
    + unfold handleMagicEditProcess. rewrite Himg. exact Hs.
  - (* SelectResult *)
    unfold enabled in He.
    destruct (state s); try discriminate He.
    apply andb_true_iff in He. destruct He as [_ He].
    apply Nat.ltb_lt in He. right. exact He.
Qed.

Lemma reachable_index_valid s :
  reachable s -> index_valid_when_results s.
Proof.
  induction 1 as [style resolution detail | remote a s Hs IH He].
  - left. reflexivity.
  - apply dispatch_index_valid; assumption.
Qed.

End AppFacts.

(* ================================================================== *)
(** ** The mask editor *)

Module MaskEditorFacts.
Import MaskEditor.
Local Open Scope Z_scope.

(** *** The threshold loop *)

Lemma binarize_pixels (ps : list Pixel) :
  putImageData (binarize (getImageData ps)) = map threshold ps.
Proof.
  induction ps as [| p ps IH]; [ reflexivity | ].
  cbn [getImageData binarize map]. unfold threshold.
  destruct (red p >? 0); cbn [putImageData]; rewrite IH.
  - reflexivity.
  - destruct p; reflexivity.
Qed.

(** The loop reads the red entry and nothing else: a pixel without red
    is left as it is, whatever its other channels hold. *)
Lemma binarize_reads_red_only :
  binarize [ 0; 0; 100; 255;  1; 0; 0; 255 ]
  = [ 0; 0; 100; 255;  255; 255; 255; 255 ].
Proof. reflexivity. Qed.

Lemma threshold_idempotent (p : Pixel) :
  threshold (threshold p) = threshold p.
Proof.
  unfold threshold. destruct (red p >? 0) eqn:E; [ reflexivity | ].
  rewrite E. reflexivity.
Qed.

(** Binarizing the pixels of a mask again changes nothing. *)
Lemma binarize_idempotent (ps : list Pixel) :
  map threshold (map threshold ps) = map threshold ps.
Proof.
  rewrite map_map. apply map_ext. intros p. apply threshold_idempotent.
Qed.

(** *** Compositing onto the black fill *)

Section Compositing.
Variable quantize : Z -> Z.
Hypothesis quantize_rounds : rounds quantize.

Lemma quantize_zero : quantize 0 = 0.
Proof. destruct (quantize_rounds 0); lia. Qed.

Lemma quantize_full (a : Z) : 0 <= a -> quantize (255 * a) = a.
Proof. intros Ha. destruct (quantize_rounds (255 * a)); lia. Qed.

Lemma drawImage_on_black (src : list Pixel) :
  forall n, length src = n ->
  drawImage quantize src (repeat BLACK n) = map (contribution quantize) src.
Proof.
  induction src as [| p src IH]; intros n Hn; subst n; [ reflexivity | ].
  cbn [length repeat drawImage map]. rewrite IH by reflexivity.
  reflexivity.
Qed.

Lemma maskCanvas_pixels (c : Canvas) :
  length (pixels c) = (width c * height c)%nat ->
  pixels (maskCanvas quantize c)
  = map (fun p => threshold (contribution quantize p)) (pixels c).
Proof.
  intros Hwf. unfold maskCanvas, composite, fillBlack. cbn [pixels].
  rewrite binarize_pixels, drawImage_on_black by exact Hwf.
  apply map_map.
Qed.

(** What a pixel of the stroke layer contributes: its opacity in the
    red channel, and nothing at all where it has no ink. *)
Lemma contribution_ink (p : Pixel) :
  ink p ->
  red (contribution quantize p) = alpha p
  /\ (alpha p = 0 -> green (contribution quantize p) = 0
                     /\ blue (contribution quantize p) = 0)
  /\ alpha (contribution quantize p) = 255.
Proof.
  intros [Hrange Hcolour]. unfold contribution, source_over.
  cbn [red green blue alpha BLACK].
  assert (Hblack : forall ch, ch * alpha p + 0 * (255 - alpha p)
                              = ch * alpha p) by (intros; ring).
  rewrite !Hblack.
  destruct (Z.eq_dec (alpha p) 0) as [Hz | Hnz].
  - rewrite Hz, !Z.mul_0_r, quantize_zero.
    repeat split; reflexivity.
  - rewrite (Hcolour ltac:(lia)), quantize_full by lia.
    split; [ reflexivity | split; [ intros H; contradiction | reflexivity ] ].
Qed.

(** Some colour came from the stroke layer exactly where the layer has
    ink, however faint. *)
Lemma contributes_iff_ink (p : Pixel) :
  ink p ->
  any_channel_nonzero (contribution quantize p) = (alpha p >? 0).
Proof.
  intros Hink. destruct (contribution_ink p Hink) as (Hr & Hgb & _).
  unfold any_channel_nonzero. rewrite Hr.
  destruct Hink as [Hrange _].
  destruct (Z.eqb_spec (alpha p) 0) as [Hz | Hnz].
  - destruct (Hgb Hz) as [Hg Hb]. rewrite Hg, Hb, Hz. reflexivity.
  - cbn. destruct (Z.gtb_spec (alpha p) 0); [ reflexivity | lia ].
Qed.

Lemma threshold_contribution (p : Pixel) :
  ink p ->
  threshold (contribution quantize p)
  = if any_channel_nonzero (contribution quantize p) then WHITE else BLACK.
Proof.
  intros Hink. rewrite (contributes_iff_ink p Hink).
  destruct (contribution_ink p Hink) as (Hr & Hgb & Ha).
  unfold threshold. rewrite Hr.
  destruct (Z.gtb_spec (alpha p) 0) as [Hpos | Hzero]; [ reflexivity | ].
  destruct Hink as [Hrange _].
  assert (Hz : alpha p = 0) by lia.
  destruct (Hgb Hz) as [Hg Hb].
  destruct (contribution quantize p) as [r g b a]; cbn in *.
  subst. rewrite Hz. reflexivity.
Qed.

End Compositing.

Lemma nearest_rounds : rounds nearest.
Proof.
  intros x Hx. unfold nearest.
  pose proof (Z.div_mod (2 * x + 255) 510 ltac:(lia)) as Hdm.
  pose proof (Z.mod_pos_bound (2 * x + 255) 510 ltac:(lia)) as Hb.
  lia.
Qed.

(** C6.  For a visual canvas painted with the editor's stroke colour,
    every pixel of the mask is opaque white where the stroke layer
    contributed to some colour channel, which is exactly where the layer
    has ink of any opacity, and opaque black elsewhere; so the mask holds
    these two values and no other, one per pixel of the image. *)
Theorem mask_two_valued (quantize : Z -> Z) (c : Canvas) :
  rounds quantize ->
  length (pixels c) = (width c * height c)%nat ->
  Forall ink (pixels c) ->
  (forall i p, nth_error (pixels c) i = Some p ->
     nth_error (pixels (maskCanvas quantize c)) i
     = Some (if any_channel_nonzero (contribution quantize p)
             then WHITE else BLACK)
     /\ (any_channel_nonzero (contribution quantize p) = true
         <-> 0 < alpha p))
  /\ (forall m, In m (pixels (maskCanvas quantize c)) ->
        m = WHITE \/ m = BLACK)
  /\ length (pixels (maskCanvas quantize c)) = (width c * height c)%nat.
Proof.
  intros Hq Hwf Hink.
  rewrite (maskCanvas_pixels quantize c Hwf).
  rewrite Forall_forall in Hink.
  split; [ | split ].
  - intros i p Hp.
    assert (Hp_ink : ink p) by (apply Hink; eapply nth_error_In; exact Hp).
    split.
    + rewrite nth_error_map, Hp. cbn [option_map].
      rewrite (threshold_contribution quantize Hq p Hp_ink). reflexivity.
    + rewrite (contributes_iff_ink quantize Hq p Hp_ink).
      destruct (Z.gtb_spec (alpha p) 0); split; intros; try lia;
        try reflexivity; discriminate.
  - intros m Hm. apply in_map_iff in Hm. destruct Hm as (p & <- & Hp).
    rewrite (threshold_contribution quantize Hq p (Hink p Hp)).
    destruct (any_channel_nonzero _); [ left | right ]; reflexivity.
  - rewrite length_map. exact Hwf.
Qed.

Lemma three_pixels_ink : Forall ink (pixels three_pixels).
Proof.
  unfold three_pixels, ink. cbn [pixels].
  repeat (apply Forall_cons || apply Forall_nil); cbn;
    (split; [ lia | intros H; first [ lia | reflexivity ] ]).
Qed.

Lemma mask_two_valued_witness :
  (forall m, In m (pixels (maskCanvas nearest three_pixels)) ->
             m = WHITE \/ m = BLACK)
  /\ pixels (maskCanvas nearest three_pixels) = [ WHITE; BLACK; WHITE ].
Proof.
  split; [ | reflexivity ].
  apply (mask_two_valued nearest three_pixels nearest_rounds eq_refl
           three_pixels_ink).
Defined.

(** *** The confirm gate *)

Lemma trimStart_allWhiteSpace (s : string) :
  allWhiteSpace (trimStart s) = allWhiteSpace s.
Proof.
  induction s as [| ch s IH]; [ reflexivity | ].
  cbn [trimStart allWhiteSpace].
  destruct (isWhiteSpace ch) eqn:E; [ exact IH | ].
  cbn [allWhiteSpace]. rewrite E. reflexivity.
Qed.

Lemma trimStart_nonempty (s : string) :
  allWhiteSpace s = false -> truthy (trimStart s) = true.
Proof.
  induction s as [| ch s IH]; [ discriminate | ].
  cbn [trimStart allWhiteSpace].
  destruct (isWhiteSpace ch); [ exact IH | reflexivity ].
Qed.

Lemma trimStart_blank (s : string) :
  allWhiteSpace s = true -> trimStart s = EmptyString.
Proof.
  induction s as [| ch s IH]; [ reflexivity | ].
  cbn [trimStart allWhiteSpace].
  destruct (isWhiteSpace ch); [ exact IH | discriminate ].
Qed.

Lemma rev_string_allWhiteSpace (s : string) :
  forall acc,
    allWhiteSpace (rev_string s acc)
    = (allWhiteSpace s && allWhiteSpace acc)%bool.
Proof.
  induction s as [| ch s IH]; intros acc; [ reflexivity | ].
  cbn [rev_string allWhiteSpace]. rewrite IH. cbn [allWhiteSpace].
  destruct (isWhiteSpace ch), (allWhiteSpace s); reflexivity.
Qed.

Lemma rev_string_nonempty (s : string) :
  forall acc, truthy s = true -> truthy (rev_string s acc) = true.
Proof.
  assert (Hacc : forall t acc, truthy acc = true ->
                               truthy (rev_string t acc) = true).
  { induction t as [| ch t IH]; intros acc H; [ exact H | ].
    cbn [rev_string]. apply IH. reflexivity. }
  destruct s as [| ch s]; intros acc H; [ discriminate H | ].
  cbn [rev_string]. apply Hacc. reflexivity.
Qed.

(** [!prompt.trim()] holds exactly for the empty and the whitespace-only
    instruction. *)
Lemma trim_truthy (s : string) :
  truthy (trim s) = negb (allWhiteSpace s).
Proof.
  unfold trim, trimEnd.
  destruct (allWhiteSpace s) eqn:E.
  - rewrite (trimStart_blank s E). reflexivity.
  - cbn [negb]. apply rev_string_nonempty. apply trimStart_nonempty.
    rewrite rev_string_allWhiteSpace, trimStart_allWhiteSpace, E.
    reflexivity.
Qed.

(** C9.  A click on the confirm control does nothing when nothing has
    been drawn or the instruction is empty or whitespace only; with
    something drawn and an instruction that is not blank it thresholds
    the composited mask once and then hands the mask and the instruction
    to [onConfirm]. *)
Theorem confirm_gate (quantize : Z -> Z) (ed : Editor) :
  (hasDrawn ed = false \/ allWhiteSpace (prompt ed) = true ->
     click_confirm quantize ed = [])
  /\ (forall c,
        hasDrawn ed = true -> allWhiteSpace (prompt ed) = false ->
        canvas ed = Some c ->
        click_confirm quantize ed
        = [ PutImageData (binarize (getImageData (composite quantize c)));
            OnConfirm (maskCanvas quantize c) (prompt ed) ]
        /\ binarizations (click_confirm quantize ed) = 1%nat).
Proof.
  unfold click_confirm, confirm_disabled, handleSubmit.
  rewrite trim_truthy, negb_involutive.
  split.
  - intros [H | H]; rewrite H; [ reflexivity | ].
    rewrite orb_true_r. reflexivity.
  - intros c Hd Hp Hc. rewrite Hd, Hp, Hc. cbn. split; reflexivity.
Qed.

Lemma confirm_gate_witness :
  let c := mkCanvas 1 1 [ mkPixel 255 0 100 128 ] in
  let ed := mkEditor (Some c) false 20 "replace with a hat" true None in
  click_confirm nearest ed
  = [ PutImageData (binarize (getImageData (composite nearest c)));
      OnConfirm (maskCanvas nearest c) "replace with a hat" ]
  /\ binarizations (click_confirm nearest ed) = 1%nat.
Proof.
  cbv zeta.
  apply (proj2 (confirm_gate nearest
                  (mkEditor (Some (mkCanvas 1 1 [ mkPixel 255 0 100 128 ]))
                            false 20 "replace with a hat" true None)));
    reflexivity.
Defined.

Section Strokes.
Variable strokeTo : Z -> option PointerEvent -> PointerEvent -> Canvas -> Canvas.

(** Nothing is drawn until the pointer moves with the button held, and
    nothing is drawn any more after a clear. *)
Lemma hasDrawn_events (ed : Editor) (e : PointerEvent) (c : Canvas) :
  hasDrawn (loaded 4 3) = false
  /\ (isDrawing ed = false -> hasDrawn (startDrawing strokeTo ed e) = hasDrawn ed)
  /\ (canvas ed = Some c ->
      hasDrawn (draw strokeTo (startDrawing strokeTo ed e) e) = true)
  /\ (canvas ed = Some c -> hasDrawn (handleClear ed) = false)
  /\ hasDrawn (stopDrawing ed) = hasDrawn ed.
Proof.
  split; [ reflexivity | ]. split; [ | split; [ | split ] ].
  - intros H. unfold startDrawing, draw. rewrite H. reflexivity.
  - intros H. unfold startDrawing, draw. rewrite H.
    destruct (isDrawing ed); cbn; rewrite ?H; reflexivity.
  - intros H. unfold handleClear. rewrite H. reflexivity.
  - reflexivity.
Qed.

(** After a clear the confirm control is dead, whatever was drawn
    before and whatever is typed. *)
Lemma clear_closes_gate (quantize : Z -> Z) (ed : Editor) (c : Canvas) :
  canvas ed = Some c ->
  click_confirm quantize (handleClear ed) = [].
Proof.
  intros H. unfold click_confirm, confirm_disabled, handleClear.
  rewrite H. reflexivity.
Qed.

End Strokes.

End MaskEditorFacts.

(* ================================================================== *)
(** ** The era selection *)

Module EraSelectorFacts.
Import EraSelector.

Lemma Era_eqb_spec (a b : Era) : reflect (a = b) (Era_eqb a b).
Proof. destruct a, b; constructor; congruence. Qed.

Lemma includes_In (l : list Era) (e : Era) :
  includes l e = true <-> In e l.
Proof.
  unfold includes. rewrite existsb_exists. split.
  - intros (x & Hx & He). destruct (Era_eqb_spec e x); [ subst; exact Hx | discriminate ].
  - intros H. exists e. split; [ exact H | ].
    destruct (Era_eqb_spec e e); [ reflexivity | contradiction ].
Qed.

Lemma filter_other_In (e : Era) (l : list Era) (x : Era) :
  In x (filter (fun y => negb (Era_eqb y e)) l) <-> In x l /\ x <> e.
Proof.
  rewrite filter_In.
  destruct (Era_eqb_spec x e); cbn; intuition congruence.
Qed.

Lemma filter_other_absent (e : Era) (l : list Era) :
  ~ In e l -> filter (fun y => negb (Era_eqb y e)) l = l.
Proof.
  induction l as [| a l IH]; intros H; [ reflexivity | ].
  cbn. destruct (Era_eqb_spec a e) as [-> | Hne]; cbn.
  - exfalso. apply H. left. reflexivity.
  - rewrite IH; [ reflexivity | ]. intros Hin. apply H. right. exact Hin.
Qed.

(** X1.  A click on an era card removes the era from the selection when
    it is selected and adds it otherwise; every other era stays as it
    was. *)
Theorem toggleEra_membership (e : Era) (l : list Era) (x : Era) :
  In x (toggleEra e l) <-> (x <> e /\ In x l) \/ (x = e /\ ~ In e l).
Proof.
  unfold toggleEra. destruct (includes l e) eqn:E.
  - apply includes_In in E. rewrite filter_other_In.
    split; [ intros [H1 H2]; left; tauto | ].
    intros [[H1 H2] | [H1 H2]]; [ tauto | contradiction ].
  - assert (Hn : ~ In e l).
    { intros H. apply includes_In in H. congruence. }
    rewrite in_app_iff. cbn. split.
    + intros [H | [H | []]].
      * left. split; [ intros ->; contradiction | exact H ].
      * right. split; [ symmetry; exact H | exact Hn ].
    + intros [[H1 H2] | [H1 H2]]; [ left; exact H2 | right; left; congruence ].
Qed.

Lemma toggleEra_NoDup (e : Era) (l : list Era) :
  NoDup l -> NoDup (toggleEra e l).
Proof.
  intros H. unfold toggleEra. destruct (includes l e) eqn:E.
  - apply NoDup_filter. exact H.
  - apply NoDup_app; [ exact H | repeat constructor; intros [] | ].
    intros x Hx [<- | []]. apply includes_In in Hx. congruence.
Qed.

Lemma fold_toggle_NoDup (clicks : list Era) :
  forall sel, NoDup sel ->
              NoDup (fold_left (fun sel e => toggleEra e sel) clicks sel).
Proof.
  induction clicks as [| e clicks IH]; intros sel H; cbn; [ exact H | ].
  apply IH. apply toggleEra_NoDup. exact H.
Qed.

Lemma every_era_is_a_card (e : Era) : In e cards.
Proof. destruct e; cbn; tauto. Qed.

(** X2.  Whatever cards are clicked, in whatever order and however often,
    no era is selected twice; so a batch never has more than eight
    items. *)
Theorem selection_NoDup (clicks : list Era) :
  NoDup (selection clicks) /\ length (selection clicks) <= 8.
Proof.
  assert (H : NoDup (selection clicks)).
  { apply fold_toggle_NoDup. constructor. }
  split; [ exact H | ].
  change 8 with (length cards).
  apply NoDup_incl_length; [ exact H | ].
  intros e _. apply every_era_is_a_card.
Qed.

(** X3.  Clicking the same card twice restores the selection when the era
    was not selected; when it was, the era moves to the end of the
    selection, so it will be generated last. *)
Theorem toggleEra_twice (e : Era) (l : list Era) :
  toggleEra e (toggleEra e l)
  = if includes l e
    then (filter (fun y => negb (Era_eqb y e)) l ++ [ e ])%list
    else l.
Proof.
  destruct (includes l e) eqn:E.
  - unfold toggleEra at 2. rewrite E. unfold toggleEra.
    destruct (includes (filter _ l) e) eqn:E2; [ | reflexivity ].
    apply includes_In in E2. apply filter_other_In in E2.
    destruct E2 as [_ H]. contradiction H. reflexivity.
  - assert (Hn : ~ In e l).
    { intros H. apply includes_In in H. congruence. }
    unfold toggleEra at 2. rewrite E. unfold toggleEra.
    assert (E2 : includes (l ++ [ e ]) e = true).
    { apply includes_In. apply in_app_iff. right. left. reflexivity. }
    rewrite E2, filter_app, (filter_other_absent e l Hn). cbn.
    destruct (Era_eqb_spec e e); [ | contradiction ].
    cbn. apply app_nil_r.
Qed.

Lemma fold_toggle_fresh (clicks : list Era) :
  forall sel,
    NoDup (sel ++ clicks) ->
    fold_left (fun sel e => toggleEra e sel) clicks sel = (sel ++ clicks)%list.
Proof.
  induction clicks as [| e clicks IH]; intros sel H; cbn.
  - symmetry. apply app_nil_r.
  - assert (Hn : ~ In e sel).
    { apply NoDup_remove_2 in H. intros Hin. apply H.
      apply in_app_iff. left. exact Hin. }
    unfold toggleEra at 2.
    destruct (includes sel e) eqn:E.
    + apply includes_In in E. contradiction.
    + rewrite IH; rewrite <- app_assoc; [ reflexivity | exact H ].
Qed.

(** X4.  When each card is clicked once, the selection is the eras in the
    order of the clicks: this is the order the batch will request them
    in. *)
Theorem selection_in_click_order (clicks : list Era) :
  NoDup clicks -> selection clicks = clicks.
Proof.
  intros H. unfold selection. apply (fold_toggle_fresh clicks []). exact H.
Qed.

Lemma selection_in_click_order_witness :
  selection [ VIKING; CYBERPUNK; VICTORIAN ] = [ VIKING; CYBERPUNK; VICTORIAN ].
Proof.
  apply (selection_in_click_order [ VIKING; CYBERPUNK; VICTORIAN ]).
  repeat constructor; cbn; intuition discriminate.
Defined.

End EraSelectorFacts.

(* ================================================================== *)
(** ** The camera *)

Module CameraFacts.
Import JsText Camera.

Lemma lowerChar_idempotent (c : ascii) : lowerChar (lowerChar c) = lowerChar c.
Proof.
  destruct c as [[] [] [] [] [] [] [] []]; reflexivity.
Qed.

Lemma toLowerCase_idempotent (s : string) :
  toLowerCase (toLowerCase s) = toLowerCase s.
Proof.
  induction s as [| c s IH]; [ reflexivity | ].
  cbn. rewrite lowerChar_idempotent, IH. reflexivity.
Qed.

Lemma describe_one_of_five (err : Rejection) :
  In (describe err) [ DENIED; DISMISSED; NOT_FOUND; IN_USE; NO_ACCESS ].
Proof.
  unfold describe.
  destruct (_ || _ || _); [ cbn; tauto | ].
  destruct (includes "dismissed" _); [ cbn; tauto | ].
  destruct (_ || _); [ cbn; tauto | ].
  destruct (_ =? _); cbn; tauto.
Qed.

Lemma describe_truthy (err : Rejection) : truthy (describe err) = true.
Proof.
  pose proof (describe_one_of_five err) as Hin. cbn in Hin.
  destruct Hin as [H | [H | [H | [H | [H | []]]]]]; rewrite <- H; reflexivity.
Qed.

(** X5.  Whatever [getUserMedia] rejects with, the user is shown one of
    five messages, never an empty one; a refusal is recognised by either
    error name or by "denied" anywhere in the message and comes before
    every other reading; and the letter case of the message does not
    matter. *)
Theorem describe_cases (err : Rejection) :
  In (describe err) [ DENIED; DISMISSED; NOT_FOUND; IN_USE; NO_ACCESS ]
  /\ truthy (describe err) = true
  /\ (name err = Some "NotAllowedError"
      \/ name err = Some "PermissionDeniedError"
      \/ includes "denied" (toLowerCase (or_else (message err) EmptyString)) = true ->
      describe err = DENIED)
  /\ describe (mkRejection (name err)
                 (Some (toLowerCase (or_else (message err) EmptyString))))
     = describe err.
Proof.
  split; [ apply describe_one_of_five | split; [ | split ] ].
  - apply describe_truthy.
  - unfold describe. intros [H | [H | H]]; rewrite H.
    + reflexivity.
    + reflexivity.
    + rewrite orb_true_r. reflexivity.
  - unfold describe. cbn [name message].
    set (m := or_else (message err) EmptyString).
    assert (Hm : toLowerCase (or_else (Some (toLowerCase m)) EmptyString)
                 = toLowerCase m).
    { unfold or_else. destruct (truthy (toLowerCase m)) eqn:E.
      - apply toLowerCase_idempotent.
      - destruct m; [ reflexivity | discriminate E ]. }
    rewrite Hm. reflexivity.
Qed.

Lemma describe_cases_witness :
  describe (mkRejection (Some "NotFoundError")
              (Some "Permission DENIED by system")) = DENIED.
Proof.
  exact (proj1 (proj2 (proj2
           (describe_cases (mkRejection (Some "NotFoundError")
                              (Some "Permission DENIED by system")))))
           (or_intror (or_intror eq_refl))).
Defined.

Lemma startCamera_error (videoMounted : bool) (a : Attempt) (st : State) :
  error (startCamera videoMounted a st)
  = match a with
    | Unsupported => NO_ACCESS
    | Rejected err => describe err
    | Granted _ => EmptyString
    end.
Proof.
  unfold startCamera, stopCamera. cbn.
  destruct a as [| err | id]; destruct (streamRef st); try reflexivity;
    destruct videoMounted; reflexivity.
Qed.

Lemma step_invariant (st : State) (x : Step) :
  (isStreamActive st = true <-> streamRef st <> None) ->
  (truthy (error st) = true -> isStreamActive st = false) ->
  (isStreamActive (step st x) = true <-> streamRef (step st x) <> None)
  /\ (truthy (error (step st x)) = true -> isStreamActive (step st x) = false).
Proof.
  intros Hflag Herr.
  destruct x as [videoMounted a |]; cbn [step].
  - unfold startCamera, stopCamera. cbn.
    destruct (streamRef st) as [old |] eqn:Eold; cbn.
    + destruct a as [| err | id]; cbn;
        [ | | destruct videoMounted; cbn ];
        (split; [ split; [ discriminate || congruence | congruence ]
                | try reflexivity; try discriminate ]).
    + assert (Hoff : isStreamActive st = false).
      { destruct (isStreamActive st); [ | reflexivity ].
        exfalso. apply (proj1 Hflag); reflexivity. }
      destruct a as [| err | id]; cbn;
        [ | | destruct videoMounted; cbn ]; rewrite ?Eold, ?Hoff;
        (split; [ split; [ discriminate || congruence | congruence ]
                | try reflexivity; try discriminate ]).
  - unfold stopCamera.
    destruct (streamRef st) as [old |] eqn:Eold; cbn.
    + split; [ split; [ discriminate | congruence ] | reflexivity ].
    + rewrite Eold. split; assumption.
Qed.

(** X6.  Through any series of camera starts and stops, the stream is
    marked active exactly when the component holds one, and never while
    an error is shown; so the shutter hands a frame on only with a live
    stream, and a failed start (a missing camera API included, which shows
    the general "Could not access camera." text) leaves it dead. *)
Theorem shutter_needs_live_stream (xs : list Step) :
  let st := fold_left step xs mounted_state in
  (isStreamActive st = true <-> streamRef st <> None)
  /\ (truthy (error st) = true -> isStreamActive st = false)
  /\ (forall videoMounted frame img,
        handleCapture videoMounted frame st = Some img ->
        streamRef st <> None /\ error st = EmptyString /\ frame = Some img)
  /\ (forall videoMounted a frame,
        match a with Granted _ => False | _ => True end ->
        handleCapture videoMounted frame (startCamera videoMounted a st) = None)
  /\ error (startCamera true Unsupported st) = NO_ACCESS.
Proof.
  cbv zeta.
  assert (Hinv : forall st0,
             (isStreamActive st0 = true <-> streamRef st0 <> None) ->
             (truthy (error st0) = true -> isStreamActive st0 = false) ->
             (isStreamActive (fold_left step xs st0) = true
              <-> streamRef (fold_left step xs st0) <> None)
             /\ (truthy (error (fold_left step xs st0)) = true ->
                 isStreamActive (fold_left step xs st0) = false)).
  { induction xs as [| x xs IH]; intros st0 H1 H2; cbn; [ split; assumption | ].
    destruct (step_invariant st0 x H1 H2) as [H1' H2'].
    apply IH; assumption. }
  destruct (Hinv mounted_state) as [H1 H2].
  { cbn. split; [ discriminate | congruence ]. }
  { cbn. discriminate. }
  set (st := fold_left step xs mounted_state) in *.
  split; [ exact H1 | split; [ exact H2 | split; [ | split ] ] ].
  - intros videoMounted frame img H. unfold handleCapture in H.
    destruct videoMounted; cbn in H; [ | discriminate H ].
    destruct (isStreamActive st) eqn:Ea; cbn in H; [ | discriminate H ].
    destruct (error st) as [| c e] eqn:Ee; cbn in H; [ | discriminate H ].
    repeat split; [ apply H1; reflexivity | exact H ].
  - intros videoMounted a frame Ha. unfold handleCapture.
    pose proof (startCamera_error videoMounted a st) as He.
    destruct (step_invariant st (Start videoMounted a) H1 H2) as [_ H2'].
    cbn [step] in H2'.
    destruct a as [| err | id]; [ | | contradiction ].
    + rewrite H2' by (rewrite He; reflexivity).
      rewrite andb_false_r. reflexivity.
    + rewrite H2' by (rewrite He; apply describe_truthy).
      rewrite andb_false_r. reflexivity.
  - apply startCamera_error.
Qed.

Lemma shutter_needs_live_stream_witness :
  handleCapture true (Some "data:image/jpeg;base64,AAAA")
    (startCamera true (Rejected (mkRejection (Some "NotReadableError") None))
       (fold_left step [ Start true (Granted 1) ] mounted_state))
  = None.
Proof.
  exact (proj1 (proj2 (proj2 (proj2
           (shutter_needs_live_stream [ Start true (Granted 1) ]))))
           true (Rejected (mkRejection (Some "NotReadableError") None))
           (Some "data:image/jpeg;base64,AAAA") I).
Defined.

Lemma step_stopped_mono (st : State) (x : Step) (id : nat) :
  In id (stopped st) -> In id (stopped (step st x)).
Proof.
  intros H. destruct x as [videoMounted a |]; cbn [step];
    unfold startCamera, stopCamera; cbn;
    destruct (streamRef st); try destruct a; try destruct videoMounted;
    cbn; auto.
Qed.

Lemma step_accounts (st : State) (x : Step) (id : nat) :
  streamRef st = Some id ->
  streamRef (step st x) = Some id \/ In id (stopped (step st x)).
Proof.
  intros H. destruct x as [videoMounted a |]; cbn [step];
    unfold startCamera, stopCamera; cbn; rewrite H;
    try destruct a; try destruct videoMounted; cbn; auto.
Qed.

Lemma step_granted (st : State) (videoMounted : bool) (id : nat) :
  streamRef (step st (Start videoMounted (Granted id))) = Some id
  \/ In id (stopped (step st (Start videoMounted (Granted id)))).
Proof.
  cbn [step]. unfold startCamera, stopCamera. cbn.
  destruct (streamRef st); destruct videoMounted; cbn; auto.
Qed.

(** X7.  No camera stream is left running unowned: every stream the
    browser ever granted is either the one the component holds or has had
    its tracks stopped, also when it arrived after the video element was
    gone; and after the clean-up on unmount all of them are stopped. *)
Theorem no_stream_leak (xs : list Step) :
  let st := fold_left step xs mounted_state in
  (forall id, In id (granted xs) ->
              streamRef st = Some id \/ In id (stopped st))
  /\ (forall id, In id (granted xs) -> In id (stopped (stopCamera st))).
Proof.
  cbv zeta.
  assert (Hgen : forall st0 id,
             In id (granted xs) \/ streamRef st0 = Some id
             \/ In id (stopped st0) ->
             streamRef (fold_left step xs st0) = Some id
             \/ In id (stopped (fold_left step xs st0))).
  { induction xs as [| x xs IH]; intros st0 id H; cbn [fold_left].
    - cbn in H. destruct H as [[] | H]. exact H.
    - apply IH.
      destruct H as [H | [H | H]].
      + destruct x as [videoMounted [| err | id'] |]; cbn [granted] in H;
          try (left; exact H).
        destruct H as [<- | H]; [ right | left; exact H ].
        apply step_granted.
      + right. apply step_accounts. exact H.
      + right. right. apply step_stopped_mono. exact H. }
  assert (H1 : forall id, In id (granted xs) ->
                 streamRef (fold_left step xs mounted_state) = Some id
                 \/ In id (stopped (fold_left step xs mounted_state))).
  { intros id H. apply Hgen. left. exact H. }
  split; [ exact H1 | ].
  intros id H. destruct (H1 id H) as [Hc | Hs]; unfold stopCamera.
  - rewrite Hc. cbn. left. reflexivity.
  - destruct (streamRef _); cbn; auto.
Qed.

End CameraFacts.

(* ================================================================== *)
(** ** The service functions *)

Module ServiceFacts.
Import geminiService App AppView.

Lemma strip_prefix_app (p q s : string) :
  strip_prefix (p ++ q) s
  = match strip_prefix p s with
    | Some rest => strip_prefix q rest
    | None => None
    end.
Proof.
  revert s. induction p as [| a p IH]; intros s; [ reflexivity | ].
  destruct s as [| b s]; cbn; [ reflexivity | ].
  destruct (Ascii.eqb a b); [ apply IH | reflexivity ].
Qed.

Lemma strip_prefix_self (p d : string) : strip_prefix p (p ++ d) = Some d.
Proof.
  induction p as [| a p IH]; cbn; [ destruct d; reflexivity | ].
  rewrite Ascii.eqb_refl. exact IH.
Qed.

Lemma cleanBase64_unfold (s : string) :
  cleanBase64 s
  = match strip_prefix ("data:image/" ++ "png;base64,") s with
    | Some rest => rest
    | None =>
        match strip_prefix ("data:image/" ++ "jpeg;base64,") s with
        | Some rest => rest
        | None =>
            match strip_prefix ("data:image/" ++ "jpg;base64,") s with
            | Some rest => rest
            | None =>
                match strip_prefix ("data:image/" ++ "webp;base64,") s with
                | Some rest => rest
                | None => s
                end
            end
        end
    end.
Proof. reflexivity. Qed.

(** X8.  [cleanBase64] removes exactly one data-URL header of the four
    image types and leaves every string that does not begin with
    "data:image/" as it is; in particular it gives back the payload of
    every image URL the service itself returns. *)
Theorem cleanBase64_header (d s url : string) :
  (forall h, In h data_url_headers -> cleanBase64 (h ++ d) = d)
  /\ (strip_prefix "data:image/" s = None -> cleanBase64 s = s)
  /\ (png_data_url url ->
      exists payload, url = "data:image/png;base64," ++ payload
                      /\ cleanBase64 url = payload).
Proof.
  split; [ | split ].
  - intros h Hh. cbn in Hh.
    destruct Hh as [<- | [<- | [<- | [<- | []]]]]; reflexivity.
  - intros H. rewrite cleanBase64_unfold, !strip_prefix_app, H. reflexivity.
  - intros (payload & -> & _). exists payload. split; reflexivity.
Qed.

Lemma cleanBase64_header_witness :
  cleanBase64 "data:image/webp;base64,UklGRg==" = "UklGRg=="
  /\ cleanBase64 "UklGRg==" = "UklGRg==".
Proof.
  destruct (cleanBase64_header "UklGRg==" "UklGRg==" EmptyString)
    as (Hstrip & Hkeep & _).
  split.
  - apply (Hstrip "data:image/webp;base64,"). cbn. tauto.
  - apply Hkeep. reflexivity.
Defined.

Lemma first_image_spec (ps : list ResponsePart) (d : string) :
  first_image ps = Some d <->
  exists before after,
    ps = (before ++ mkResponsePart (Some d) :: after)%list
    /\ truthy d = true
    /\ Forall (fun p => present (inlineData_data p) = None) before.
Proof.
  induction ps as [| p ps IH]; cbn.
  - split; [ discriminate | ].
    intros (before & after & H & _). destruct before; discriminate H.
  - destruct (present (inlineData_data p)) as [d' |] eqn:E.
    + split.
      * intros H. injection H as ->.
        exists [], ps. destruct p as [[v |]]; cbn in E; [ | discriminate E ].
        destruct (truthy v) eqn:Ev; [ | discriminate E ].
        injection E as ->. repeat split; [ exact Ev | constructor ].
      * intros (before & after & H & Ht & Hb).
        destruct before as [| b before]; cbn in H; injection H as -> ->.
        -- cbn in E. rewrite Ht in E. symmetry. exact E.
        -- apply Forall_inv in Hb. congruence.
    + rewrite IH. split.
      * intros (before & after & -> & Ht & Hb).
        exists (p :: before), after. repeat split; [ exact Ht | ].
        constructor; assumption.
      * intros (before & after & H & Ht & Hb).
        destruct before as [| b before]; cbn in H; injection H as -> ->.
        -- cbn in E. rewrite Ht in E. discriminate E.
        -- exists before, after. repeat split; [ exact Ht | ].
           apply Forall_inv_tail in Hb. exact Hb.
Qed.

(** X9.  The image taken from a response is the data of the first part
    that carries any: parts without inline data, or with empty data, are
    passed over, and a response with no such part or no parts at all
    yields no image. *)
Theorem image_of_first_part (r : GenerateContentResponse) (d : string) :
  (image_of r = Some d <->
   exists before after,
     candidate_parts r = Some (before ++ mkResponsePart (Some d) :: after)%list
     /\ truthy d = true
     /\ Forall (fun p => present (inlineData_data p) = None) before)
  /\ (candidate_parts r = None -> image_of r = None).
Proof.
  unfold image_of. split.
  - destruct (candidate_parts r) as [ps |].
    + rewrite first_image_spec. split.
      * intros (b & a & -> & H). exists b, a. split; [ reflexivity | exact H ].
      * intros (b & a & Hps & H). injection Hps as ->.
        exists b, a. split; [ reflexivity | exact H ].
    + split; [ discriminate | ].
      intros (b & a & H & _). discriminate H.
  - intros ->. reflexivity.
Qed.

Lemma image_of_truthy (r : GenerateContentResponse) (d : string) :
  image_of r = Some d -> truthy d = true.
Proof.
  unfold image_of. destruct (candidate_parts r) as [ps |]; [ | discriminate ].
  intros H. apply first_image_spec in H.
  destruct H as (_ & _ & _ & Ht & _). exact Ht.
Qed.

(** X10.  [timeTravel] and [customEdit] each send exactly one request and
    leave the session alone; they return a PNG data URL with a payload,
    or throw "Failed to generate image. Please try again.", the same
    error whether the SDK threw, answered without parts or answered with
    text only: the inner "No image generated." never gets out. *)
Theorem generation_call (remote : Remote) (n : nat) (s : Session)
    (img prompt style resolution : string) (detail : Z) (e : Era) :
  let ran p := run remote n p s in
  let ok (r : Ran Session (Completion string)) :=
    final r = s /\ next r = S n /\ length (issued (trace r)) = 1%nat
    /\ (value r = Thrown (mkError GENERATION_FAILED)
        \/ exists url, value r = Normal url /\ png_data_url url) in
  ok (ran (timeTravel img e style resolution detail))
  /\ ok (ran (customEdit img prompt style resolution detail)).
Proof.
  cbv zeta. unfold timeTravel, customEdit, processImage. cbn [run].
  split.
  - destruct (remote n _) as [r | err]; cbn;
      [ destruct (image_of r) as [d |] eqn:E; cbn | ];
      repeat split; try (left; reflexivity).
    right. eexists. split; [ reflexivity | ].
    exists d. split; [ reflexivity | exact (image_of_truthy r d E) ].
  - destruct (remote n _) as [r | err]; cbn;
      [ destruct (image_of r) as [d |] eqn:E; cbn | ];
      repeat split; try (left; reflexivity).
    right. eexists. split; [ reflexivity | ].
    exists d. split; [ reflexivity | exact (image_of_truthy r d E) ].
Qed.

(** X11.  [analyzeImage] sends exactly one request; its report is never
    the empty string (a response without text gives "No analysis
    available."), and its only error is "Failed to analyze image. Please
    try again.". *)
Theorem analysis_call (remote : Remote) (n : nat) (s : Session)
    (img : string) (analysisType : AnalysisType) :
  let r := run remote n (analyzeImage img analysisType) s in
  final r = s /\ length (issued (trace r)) = 1%nat
  /\ (value r = Thrown (mkError "Failed to analyze image. Please try again.")
      \/ exists report, value r = Normal report /\ truthy report = true)
  /\ (forall response,
        remote n (analysis_request img analysisType) = Normal response ->
        response_text response = None
        \/ response_text response = Some EmptyString ->
        value r = Normal "No analysis available.").
Proof.
  cbv zeta. unfold analyzeImage, analysis_request. cbn [run].
  destruct (remote n _) as [response | err]; cbn.
  - repeat split.
    + right. eexists. split; [ reflexivity | ].
      unfold or_else. destruct (response_text response) as [t |];
        [ destruct (truthy t) eqn:E; [ exact E | reflexivity ] | reflexivity ].
    + intros response' H [Ht | Ht]; injection H as <-; rewrite Ht; reflexivity.
  - repeat split; [ left; reflexivity | ].
    intros response H. discriminate H.
Qed.

End ServiceFacts.

(* ================================================================== *)
(** ** The session between actions *)

Module SessionFacts.
Import geminiService App AppView AppFacts.
Local Open Scope nat_scope.

Lemma present_some (o : option string) (v : string) :
  present o = Some v -> o = Some v /\ truthy v = true.
Proof.
  destruct o as [w |]; cbn; [ | discriminate ].
  destruct (truthy w) eqn:E; [ | discriminate ].
  intros H. injection H as ->. split; [ reflexivity | exact E ].
Qed.

Lemma png_url_of_image (r : GenerateContentResponse) (d : string) :
  image_of r = Some d -> png_data_url ("data:image/png;base64," ++ d).
Proof.
  intros H. exists d. split; [ reflexivity | ].
  unfold image_of in H. destruct (candidate_parts r) as [ps |]; [ | discriminate ].
  induction ps as [| p ps IH]; cbn in H; [ discriminate | ].
  destruct (present (inlineData_data p)) as [d' |] eqn:E; [ | exact (IH H) ].
  injection H as ->. apply present_some in E. apply E.
Qed.

(** The results the loop hands back are the ones it had, followed by data
    URLs of generated images. *)
Lemma journey_loop_urls remote img env :
  forall eras n acc s,
    Forall (fun r => png_data_url (imageUrl r)) acc ->
    Forall (fun r => png_data_url (imageUrl r))
           (fst (value (run remote n (journey_loop img env eras acc) s))).
Proof.
  induction eras as [| e rest IH]; intros n acc s Hacc.
  - exact Hacc.
  - destruct (succeeds_or_fails (remote n (era_request img env e))) as [Hs | Hf].
    + destruct (succeeds_inv _ Hs) as (resp & d & Hr & Hd).
      rewrite (journey_loop_ok _ _ _ _ _ _ _ _ _ _ Hr Hd). cbv zeta.
      cbn [value]. apply IH. apply Forall_app. split; [ exact Hacc | ].
      constructor; [ | constructor ]. cbn. exact (png_url_of_image resp d Hd).
    + rewrite (journey_loop_fail _ _ _ _ _ _ _ _ Hf). exact Hacc.
Qed.

(** The three ways a batch ends. *)
Lemma handleStartJourney_final remote s eras img :
  present (capturedImage s) = Some img ->
  1 <= length eras ->
  exists results,
    Forall (fun r => png_data_url (imageUrl r)) results
    /\ ((results <> []
         /\ dispatch remote (StartJourney eras) s
            = with_state RESULT
                (with_generatedResults results (begin_run PROCESSING s)))
        \/ (results <> []
            /\ dispatch remote (StartJourney eras) s
               = with_state RESULT
                   (with_error (Some GENERATION_FAILED)
                      (with_generatedResults results
                         (begin_run PROCESSING s))))
        \/ dispatch remote (StartJourney eras) s
           = with_state PREVIEW
               (with_error (Some GENERATION_FAILED)
                  (begin_run PROCESSING s))).
Proof.
  intros Himg Hlen. unfold dispatch. cbn [handler].
  rewrite (handleStartJourney_run remote s eras s img Himg Hlen). cbv zeta.
  cbn [final].
  destruct (k_then_failure_exists remote img s eras 0) as (k & Hk).
  pose proof (journey_loop_urls remote img s eras 0 []
                (begin_run PROCESSING s) (Forall_nil _)) as Hurls.
  destruct (journey_loop_run remote img s eras k 0 []
              (begin_run PROCESSING s) Hk)
    as (Hl & Hz & _ & Hnorm & Hthrow & Hfin & _).
  cbv zeta in Hl, Hz, Hnorm, Hthrow, Hfin.
  set (r := run remote 0 (journey_loop img s eras [])
                (begin_run PROCESSING s)) in *.
  destruct Hk as (Hle & _ & _). simpl in Hl.
  exists (fst (value r)). split; [ exact Hurls | ].
  assert (Hne : k <> 0 -> fst (value r) <> []).
  { intros Hk0 Hnil. rewrite Hnil in Hl. simpl in Hl. lia. }
  destruct (Nat.eq_dec k (length eras)) as [Heq | Hneq].
  - left. rewrite (Hnorm Heq), Hfin.
    destruct k as [| k']; [ lia | ].
    split; [ apply Hne; lia | reflexivity ].
  - rewrite (Hthrow ltac:(lia)), Hfin, Hl. right.
    destruct k as [| k'].
    + right. reflexivity.
    + left. split; [ apply Hne; lia | reflexivity ].
Qed.

Ltac settled_field :=
  first
    [ solve [ intuition (try discriminate; try congruence; auto) ]
    | solve [ right; cbn; lia ]
    | solve [ right; eexists; split; [ reflexivity | cbn; tauto ] ]
    | solve [ constructor; [ eapply png_url_of_image; eassumption
                           | constructor ] ]
    | solve [ intros _; intros H; discriminate H ]
    | solve [ intros H; destruct H as [H | H]; discriminate H ]
    | idtac ].

Ltac settled_fields := constructor; cbn; settled_field.

Lemma settled_initial style resolution detail :
  settled (initial style resolution detail).
Proof.
  settled_fields.
Qed.

Ltac from_phase Hs Hst :=
  destruct Hs as [Hph Hho Hre Hix Hur Her];
  try (assert (Hh : capturedImage _ = None /\ generatedResults _ = [])
        by (apply Hho; rewrite Hst; auto));
  try (assert (Hr : generatedResults _ <> [])
        by (apply Hre; rewrite Hst; reflexivity)).

Lemma dispatch_settled remote a s :
  enabled a s = true -> settled s -> settled (dispatch remote a s).
Proof.
  intros He Hs. unfold enabled in He.
  destruct (state s) eqn:Hst; destruct a; try discriminate He;
    from_phase Hs Hst; unfold dispatch; cbn [handler].
  all: try solve [ settled_fields ].
  - (* Analyze *)
    destruct (present (capturedImage s)) as [img |] eqn:Himg.
    + rewrite (handleAnalyze_run remote s s img Himg). cbv zeta. cbn [final].
      destruct (remote 0 _) as [r | err]; settled_fields.
    + unfold handleAnalyze. rewrite Himg. settled_fields.
  - (* GeneratePrompt *)
    unfold handleGeneratePrompt, generateCreativePrompt.
    destruct (present (capturedImage s)); [ | settled_fields ].
    cbn [bind run final]. destruct (remote 0 _); settled_fields.
  - (* Restore *)
    destruct (present (capturedImage s)) as [img |] eqn:Himg.
    + rewrite (handleRestore_run remote s s img Himg). cbv zeta.
      destruct (remote 0 _) as [r | err]; cbn [final].
      * destruct (remote 1 _) as [response | err];
          [ destruct (image_of response) as [d |] eqn:Hd | ];
          settled_fields.
      * settled_fields.
    + unfold handleRestore. rewrite Himg. settled_fields.
  - (* StartJourney *)
    apply Nat.ltb_lt in He.
    destruct (present (capturedImage s)) as [img |] eqn:Himg.
    + destruct (handleStartJourney_final remote s eras img Himg He)
        as (results & Hurls & [[Hne H] | [[Hne H] | H]]);
        unfold dispatch in H; cbn [handler] in H; rewrite H; settled_fields;
        try (right; destruct results; [ contradiction | cbn; lia ]).
    + unfold handleStartJourney. rewrite Himg. settled_fields.
  - (* CustomEdit *)
    destruct (present (capturedImage s)) as [img |] eqn:Himg.
    + rewrite (handleCustomEdit_run remote s s img _ Himg). cbv zeta.
      cbn [final].
      destruct (remote 0 _) as [response | err];
        [ destruct (image_of response) as [d |] eqn:Hd | ];
        settled_fields.
    + unfold handleCustomEdit. rewrite Himg. settled_fields.
  - (* ConfirmMask *)
    destruct (present (capturedImage s)) as [img |] eqn:Himg.
    + rewrite (handleMagicEditProcess_run remote s s img _ _ Himg). cbv zeta.
      cbn [final].
      destruct (remote 0 _) as [response | err];
        [ destruct (image_of response) as [d |] eqn:Hd | ];
        settled_fields.
    + unfold handleMagicEditProcess. rewrite Himg. settled_fields.
  - (* SelectResult *)
    apply andb_true_iff in He. destruct He as [_ He].
    apply Nat.ltb_lt in He. settled_fields.
Qed.

Lemma reachable_settled s : reachable s -> settled s.
Proof.
  induction 1 as [style resolution detail | remote a s Hs IH He].
  - apply settled_initial.
  - apply dispatch_settled; assumption.
Qed.


(** X12.  A handler that runs to its end with no other event in between
    never leaves the session in PROCESSING or RESTORE when it did not
    start there, whatever the collaborator answers.  The source image is
    written by the capture and by the reset only: every other handler
    leaves it as it was.  A capture stores what it is handed, also the
    null of a file that could not be read, and lands in PREVIEW. *)
Theorem handlers_leave_loading_phases remote a s :
  state s <> PROCESSING -> state s <> RESTORE ->
  let s' := dispatch remote a s in
  state s' <> PROCESSING /\ state s' <> RESTORE
  /\ match a with
     | Capture imageSrc => capturedImage s' = imageSrc /\ state s' = PREVIEW
     | Reset => capturedImage s' = None /\ state s' = HOME
     | _ => capturedImage s' = capturedImage s
     end.
Proof.
  intros Hp Hr s'. subst s'. unfold dispatch.
  destruct a; cbn [handler];
    try solve [ cbn; repeat split;
                first [ assumption | discriminate | reflexivity ] ].
  - (* Analyze *)
    destruct (present (capturedImage s)) as [img |] eqn:Himg.
    + rewrite (handleAnalyze_run remote s s img Himg). cbv zeta. cbn [final].
      destruct (remote 0 _); cbn; repeat split; discriminate.
    + unfold handleAnalyze. rewrite Himg. cbn. repeat split; assumption.
  - (* GeneratePrompt *)
    unfold handleGeneratePrompt, generateCreativePrompt.
    destruct (present (capturedImage s));
      [ | cbn; repeat split; assumption ].
    cbn [bind run final].
    destruct (remote 0 _); cbn; repeat split; assumption.
  - (* Restore *)
    destruct (present (capturedImage s)) as [img |] eqn:Himg.
    + rewrite (handleRestore_run remote s s img Himg). cbv zeta.
      destruct (remote 0 _) as [r | err]; cbn [final].
      * destruct (remote 1 _) as [response | err];
          [ destruct (image_of response) | ];
          cbn; repeat split; discriminate.
      * cbn. repeat split; discriminate.
    + unfold handleRestore. rewrite Himg. cbn. repeat split; assumption.
  - (* StartJourney *)
    destruct (present (capturedImage s)) as [img |] eqn:Himg.
    + destruct eras as [| e rest].
      * unfold handleStartJourney. rewrite Himg. cbn.
        repeat split; assumption.
      * destruct (handleStartJourney_final remote s (e :: rest) img Himg)
          as (results & _ & [[_ H] | [[_ H] | H]]);
          [ cbn; lia | | | ];
          unfold dispatch in H; cbn [handler] in H; rewrite H; cbn;
          repeat split; discriminate.
    + unfold handleStartJourney. rewrite Himg. cbn. repeat split; assumption.
  - (* CustomEdit *)
    destruct (present (capturedImage s)) as [img |] eqn:Himg.
    + rewrite (handleCustomEdit_run remote s s img _ Himg). cbv zeta.
      cbn [final].
      destruct (remote 0 _) as [response | err];
        [ destruct (image_of response) | ];
        cbn; repeat split; discriminate.
    + unfold handleCustomEdit. rewrite Himg. cbn. repeat split; assumption.
  - (* ConfirmMask *)
    destruct (present (capturedImage s)) as [img |] eqn:Himg.
    + rewrite (handleMagicEditProcess_run remote s s img _ _ Himg). cbv zeta.
      cbn [final].
      destruct (remote 0 _) as [response | err];
        [ destruct (image_of response) | ];
        cbn; repeat split; discriminate.
    + unfold handleMagicEditProcess. rewrite Himg. cbn.
      repeat split; assumption.
Qed.

Lemma handlers_leave_loading_phases_witness :
  let s' := dispatch Scenario.never_image (StartJourney [ VIKING; MEDIEVAL ])
              Scenario.captured in
  state s' <> PROCESSING /\ state s' <> RESTORE
  /\ capturedImage s' = capturedImage Scenario.captured.
Proof.
  apply (handlers_leave_loading_phases Scenario.never_image
           (StartJourney [ VIKING; MEDIEVAL ]) Scenario.captured);
    discriminate.
Defined.

Lemma download_of_first (s : Session) (r : GenerationResult)
    (rest : list GenerationResult) :
  generatedResults s = r :: rest -> activeIndex s = 0 ->
  activeFilter s = "none" -> png_data_url (imageUrl r) ->
  renderResult s = Some r
  /\ forall drawFiltered,
       handleDownload drawFiltered s = Some (imageUrl r, downloadName s).
Proof.
  intros Hres Hidx Hf (d & Hurl & _).
  assert (Ha : activeResult s = Some r)
    by (unfold activeResult; rewrite Hres, Hidx; reflexivity).
  split; [ exact Ha | ].
  intros drawFiltered.
  unfold handleDownload, getProcessedImage, applyFilterToImage.
  rewrite Ha, Hf. cbn [option_map present]. rewrite Hurl. reflexivity.
Qed.

(** X13.  A pipeline action that runs to its end with no other event in
    between lands on RESULT or on PREVIEW.  On RESULT there is a result
    under the active index, which is 0 ("Error: No result" is not what
    the screen shows then), its image is a PNG data URL with a payload,
    no colour filter is on, and the download link carries exactly that
    image.  On PREVIEW there is no result and the error is set. *)
Theorem run_lands_on_result remote a s img :
  present (capturedImage s) = Some img ->
  starts_run a = true ->
  let s' := dispatch remote a s in
  (state s' = RESULT
   /\ exists r,
        renderResult s' = Some r /\ activeIndex s' = 0
        /\ png_data_url (imageUrl r) /\ activeFilter s' = "none"
        /\ forall drawFiltered,
             handleDownload drawFiltered s' = Some (imageUrl r, downloadName s'))
  \/ (state s' = PREVIEW /\ generatedResults s' = []
      /\ renderResult s' = None /\ error s' <> None).
Proof.
  intros Himg Ha s'. subst s'.
  assert (Hok : forall t r rest,
            state t = RESULT -> generatedResults t = r :: rest ->
            activeIndex t = 0 -> activeFilter t = "none" ->
            png_data_url (imageUrl r) ->
            state t = RESULT
            /\ exists r,
                 renderResult t = Some r /\ activeIndex t = 0
                 /\ png_data_url (imageUrl r) /\ activeFilter t = "none"
                 /\ forall drawFiltered,
                      handleDownload drawFiltered t
                      = Some (imageUrl r, downloadName t)).
  { intros t r rest Hst Hres Hidx Hf Hurl. split; [ exact Hst | ].
    exists r.
    destruct (download_of_first t r rest Hres Hidx Hf Hurl) as [Hr Hd].
    repeat split; assumption. }
  destruct a; try discriminate Ha; unfold dispatch; cbn [handler].
  - (* Restore *)
    rewrite (handleRestore_run remote s s img Himg). cbv zeta.
    destruct (remote 0 _) as [r | err]; cbn [final].
    + destruct (remote 1 _) as [response | err];
        [ destruct (image_of response) as [d |] eqn:Hd | ].
      * left. eapply Hok; try reflexivity.
        cbn. exact (png_url_of_image response d Hd).
      * right. cbn. repeat split. discriminate.
      * right. cbn. repeat split. discriminate.
    + right. cbn. repeat split. discriminate.
  - (* StartJourney *)
    unfold starts_run in Ha. apply Nat.ltb_lt in Ha.
    destruct (handleStartJourney_final remote s eras img Himg Ha)
      as (results & Hurls & [[Hne H] | [[Hne H] | H]]);
      unfold dispatch in H; cbn [handler] in H; rewrite H.
    + left. destruct results as [| r rest]; [ contradiction | ].
      eapply Hok; try reflexivity. cbn. exact (Forall_inv Hurls).
    + left. destruct results as [| r rest]; [ contradiction | ].
      eapply Hok; try reflexivity. cbn. exact (Forall_inv Hurls).
    + right. cbn. repeat split. discriminate.
  - (* CustomEdit *)
    rewrite (handleCustomEdit_run remote s s img _ Himg). cbv zeta.
    cbn [final].
    destruct (remote 0 _) as [response | err];
      [ destruct (image_of response) as [d |] eqn:Hd | ].
    + left. eapply Hok; try reflexivity.
      cbn. exact (png_url_of_image response d Hd).
    + right. cbn. repeat split. discriminate.
    + right. cbn. repeat split. discriminate.
  - (* ConfirmMask *)
    rewrite (handleMagicEditProcess_run remote s s img _ _ Himg). cbv zeta.
    cbn [final].
    destruct (remote 0 _) as [response | err];
      [ destruct (image_of response) as [d |] eqn:Hd | ].
    + left. eapply Hok; try reflexivity.
      cbn. exact (png_url_of_image response d Hd).
    + right. cbn. repeat split. discriminate.
    + right. cbn. repeat split. discriminate.
Qed.

Lemma run_lands_on_result_witness :
  let s' := dispatch Scenario.first_only (StartJourney [ VIKING; CYBERPUNK ])
              Scenario.captured in
  (state s' = RESULT
   /\ exists r,
        renderResult s' = Some r /\ activeIndex s' = 0
        /\ png_data_url (imageUrl r) /\ activeFilter s' = "none"
        /\ forall drawFiltered,
             handleDownload drawFiltered s' = Some (imageUrl r, downloadName s'))
  \/ (state s' = PREVIEW /\ generatedResults s' = []
      /\ renderResult s' = None /\ error s' <> None).
Proof.
  apply (run_lands_on_result Scenario.first_only
           (StartJourney [ VIKING; CYBERPUNK ]) Scenario.captured
           Scenario.photo); reflexivity.
Defined.

(** X14.  The only error texts a session ever holds are the three the
    service functions throw; the fallback texts of the handlers and the
    inner "No image generated." are never shown. *)
Theorem error_is_service_message (s : Session) (m : string) :
  reachable s -> error s = Some m ->
  In m service_errors /\ ~ In m fallback_messages.
Proof.
  intros H Hm.
  destruct (reachable_settled s H) as [_ _ _ _ _ Her].
  destruct Her as [Hn | (m' & Hm' & Hin)]; [ congruence | ].
  assert (m' = m) by congruence. subst m'.
  split; [ exact Hin | ].
  cbn in Hin. destruct Hin as [<- | [<- | [<- | []]]]; cbn;
    intuition discriminate.
Qed.

Lemma error_is_service_message_witness :
  In "Failed to generate image. Please try again." service_errors
  /\ ~ In "Failed to generate image. Please try again." fallback_messages.
Proof.
  apply (error_is_service_message Scenario.partial_failure).
  - apply visit_reachable. apply reachable_initial.
  - reflexivity.
Defined.

(** *** Runs and what came before them *)

Lemma journey_loop_env remote img env env' :
  selectedStyle env' = selectedStyle env ->
  selectedResolution env' = selectedResolution env ->
  detailLevel env' = detailLevel env ->
  forall eras n acc s,
    run remote n (journey_loop img env' eras acc) s
    = run remote n (journey_loop img env eras acc) s.
Proof.
  intros H1 H2 H3.
  assert (Hq : forall e, era_request img env' e = era_request img env e).
  { intros e. unfold era_request. rewrite H1, H2, H3. reflexivity. }
  induction eras as [| e rest IH]; intros n acc s; [ reflexivity | ].
  destruct (succeeds_or_fails (remote n (era_request img env e))) as [Hs | Hf].
  - destruct (succeeds_inv _ Hs) as (resp & d & Hr & Hd).
    rewrite (journey_loop_ok remote img env e rest acc n s resp d Hr Hd).
    rewrite <- Hq in Hr.
    rewrite (journey_loop_ok remote img env' e rest acc n s resp d Hr Hd).
    cbv zeta. rewrite IH, Hq. reflexivity.
  - rewrite (journey_loop_fail remote img env e rest acc n s Hf).
    rewrite <- Hq in Hf.
    rewrite (journey_loop_fail remote img env' e rest acc n s Hf).
    rewrite Hq. reflexivity.
Qed.

(** X15.  A new run supersedes the previous one: the session a pipeline
    action ends in does not depend on the results, the error, the active
    index or the colour filter that were there when it started. *)
Theorem new_run_supersedes remote a s img results err idx filter :
  present (capturedImage s) = Some img ->
  starts_run a = true ->
  dispatch remote a (leftovers results err idx filter s) = dispatch remote a s.
Proof.
  intros Himg Ha.
  assert (Himg' : present (capturedImage (leftovers results err idx filter s))
                  = Some img) by exact Himg.
  destruct a; try discriminate Ha; unfold dispatch; cbn [handler].
  - rewrite (handleRestore_run remote _ _ img Himg').
    rewrite (handleRestore_run remote s s img Himg). reflexivity.
  - unfold starts_run in Ha. apply Nat.ltb_lt in Ha.
    rewrite (handleStartJourney_run remote _ eras _ img Himg' Ha).
    rewrite (handleStartJourney_run remote s eras s img Himg Ha).
    cbv zeta.
    rewrite (journey_loop_env remote img s
               (leftovers results err idx filter s) eq_refl eq_refl eq_refl).
    reflexivity.
  - rewrite (handleCustomEdit_run remote _ _ img _ Himg').
    rewrite (handleCustomEdit_run remote s s img _ Himg). reflexivity.
  - rewrite (handleMagicEditProcess_run remote _ _ img _ _ Himg').
    rewrite (handleMagicEditProcess_run remote s s img _ _ Himg). reflexivity.
Qed.

Lemma new_run_supersedes_witness :
  dispatch Scenario.never_image (StartJourney [ MEDIEVAL ])
    (leftovers [ mkResult "Viking Age" "data:image/png;base64,iVBORw0KGgo=" ]
       (Some "Failed to edit image. Please try again.") 3 "sepia(100%)"
       Scenario.captured)
  = dispatch Scenario.never_image (StartJourney [ MEDIEVAL ]) Scenario.captured.
Proof.
  apply (new_run_supersedes Scenario.never_image (StartJourney [ MEDIEVAL ])
           Scenario.captured Scenario.photo); reflexivity.
Defined.



(** X17.  Generating a prompt never changes the phase or the error and
    writes nothing but the instruction field; when the collaborator
    throws, the session is exactly as it was. *)
Theorem prompt_generation_swallowed remote s :
  let s' := dispatch remote GeneratePrompt s in
  state s' = state s /\ error s' = error s
  /\ with_customPrompt EmptyString s' = with_customPrompt EmptyString s
  /\ ((forall q, exists e, remote 0 q = Thrown e) -> s' = s).
Proof.
  cbv zeta. unfold dispatch. cbn [handler].
  unfold handleGeneratePrompt, generateCreativePrompt.
  destruct (present (capturedImage s)) as [img |]; [ | repeat split ].
  cbn [bind run final].
  destruct (remote 0 _) as [r | err] eqn:E; cbn.
  - repeat split. intros H.
    match type of E with remote 0 ?q = _ => destruct (H q) as (e & He) end.
    congruence.
  - repeat split.
Qed.

Lemma prompt_generation_swallowed_witness :
  dispatch Scenario.never_image GeneratePrompt Scenario.captured
  = Scenario.captured.
Proof.
  apply (prompt_generation_swallowed Scenario.never_image Scenario.captured).
  intros q. exists (mkError "503"). reflexivity.
Defined.

(** X18.  Without a captured image (none, or the empty string) no handler
    sends a request or changes the session; and a batch over no eras does
    nothing either, image or not. *)
Theorem no_image_no_request remote s a :
  (present (capturedImage s) = None -> awaits a = true ->
   run remote 0 (handler a s) s = mkRan tt s 0 [])
  /\ run remote 0 (handler (StartJourney []) s) s = mkRan tt s 0 [].
Proof.
  split.
  - intros Himg Ha.
    destruct a; try discriminate Ha; cbn [handler];
      unfold handleAnalyze, handleGeneratePrompt, handleRestore,
        handleStartJourney, handleCustomEdit, handleMagicEditProcess;
      rewrite Himg; reflexivity.
  - cbn [handler]. unfold handleStartJourney.
    destruct (present (capturedImage s)); reflexivity.
Qed.

Lemma no_image_no_request_witness :
  run Scenario.always_image 0
      (handler Restore (with_capturedImage (Some EmptyString) Scenario.captured))
      (with_capturedImage (Some EmptyString) Scenario.captured)
  = mkRan tt (with_capturedImage (Some EmptyString) Scenario.captured) 0 [].
Proof.
  apply (no_image_no_request Scenario.always_image
           (with_capturedImage (Some EmptyString) Scenario.captured) Restore);
    reflexivity.
Defined.

End SessionFacts.

(* ================================================================== *)
(** ** Single-item runs *)

Module SingleItemFacts.
Import geminiService App AppView AppFacts.
Local Open Scope nat_scope.

(** X19.  A custom edit is a batch of one: when the collaborator returns
    an image the session ends in RESULT with the one result "Custom
    Reality", index 0 and no error; otherwise it ends in PREVIEW with no
    result and the generation error.  One request is sent either way. *)
Theorem custom_edit_terminal_rule remote s img prompt :
  present (capturedImage s) = Some img ->
  let q := edit_request img prompt (selectedStyle s) (selectedResolution s)
             (detailLevel s) in
  let r := run remote 0 (handleCustomEdit s prompt) s in
  issued (trace r) = [ q ]
  /\ (succeeds (remote 0 q) ->
      exists url,
        generatedResults (final r) = [ mkResult "Custom Reality" url ]
        /\ png_data_url url
        /\ state (final r) = RESULT /\ error (final r) = None
        /\ activeIndex (final r) = 0)
  /\ (fails (remote 0 q) ->
      generatedResults (final r) = [] /\ state (final r) = PREVIEW
      /\ error (final r) = Some GENERATION_FAILED).
Proof.
  intros Himg q r. subst r.
  rewrite (handleCustomEdit_run remote s s img prompt Himg). cbv zeta.
  fold q. cbn [trace final issued].
  split; [ reflexivity | ].
  destruct (remote 0 q) as [response | err]; cbn [succeeds fails].
  - destruct (image_of response) as [d |] eqn:Hd; split; intros H;
      try congruence.
    + eexists. repeat split. exists d. split; [ reflexivity | ].
      unfold image_of in Hd.
      destruct (candidate_parts response) as [ps |]; [ | discriminate ].
      induction ps as [| p ps IH]; cbn in Hd; [ discriminate | ].
      destruct (present (inlineData_data p)) as [d' |] eqn:E;
        [ | exact (IH Hd) ].
      injection Hd as ->. destruct (inlineData_data p) as [v |];
        cbn in E; [ | discriminate ].
      destruct (truthy v) eqn:Ev; [ congruence | discriminate ].
    + repeat split.
  - split; [ contradiction | ]. intros _. repeat split.
Qed.

Lemma custom_edit_terminal_rule_witness :
  let r := run Scenario.never_image 0
             (handleCustomEdit Scenario.prompt_typed "as a pirate")
             Scenario.prompt_typed in
  generatedResults (final r) = [] /\ state (final r) = PREVIEW
  /\ error (final r) = Some GENERATION_FAILED.
Proof.
  apply (custom_edit_terminal_rule Scenario.never_image Scenario.prompt_typed
           Scenario.photo "as a pirate").
  - reflexivity.
  - exact I.
Defined.

(** X20.  A masked edit ends in RESULT with the one result "Magic Edit"
    when the collaborator returns an image, and in PREVIEW with no result
    and the error "Failed to edit image. Please try again." otherwise;
    its one request carries the image, then the mask, then the
    instruction, and does not depend on style, resolution or detail
    level. *)
Theorem magic_edit_terminal_rule remote s img maskImage prompt :
  present (capturedImage s) = Some img ->
  let q := mask_request img maskImage prompt in
  let r := run remote 0 (handleMagicEditProcess s maskImage prompt) s in
  issued (trace r) = [ q ]
  /\ (succeeds (remote 0 q) ->
      exists url,
        generatedResults (final r) = [ mkResult "Magic Edit" url ]
        /\ state (final r) = RESULT /\ error (final r) = None
        /\ activeIndex (final r) = 0)
  /\ (fails (remote 0 q) ->
      generatedResults (final r) = [] /\ state (final r) = PREVIEW
      /\ error (final r) = Some "Failed to edit image. Please try again.")
  /\ (forall style resolution detail,
        handleMagicEditProcess
          (with_selectedStyle style
             (with_selectedResolution resolution
                (with_detailLevel detail s))) maskImage prompt
        = handleMagicEditProcess s maskImage prompt).
Proof.
  intros Himg q r. subst r.
  rewrite (handleMagicEditProcess_run remote s s img maskImage prompt Himg).
  cbv zeta. fold q. cbn [trace final issued].
  split; [ reflexivity | ].
  split; [ | split ].
  - destruct (remote 0 q) as [response | err]; cbn [succeeds];
      [ | contradiction ].
    destruct (image_of response) as [d |]; intros H; [ | congruence ].
    eexists. repeat split.
  - destruct (remote 0 q) as [response | err]; cbn [fails].
    + intros H. rewrite H. repeat split.
    + intros _. repeat split.
  - intros style resolution detail. reflexivity.
Qed.

Lemma magic_edit_terminal_rule_witness :
  issued (trace (run Scenario.always_image 0
                   (handleMagicEditProcess Scenario.captured
                      "data:image/png;base64,MASK" "replace with a hat")
                   Scenario.captured))
  = [ mask_request Scenario.photo "data:image/png;base64,MASK"
                   "replace with a hat" ].
Proof.
  apply (magic_edit_terminal_rule Scenario.always_image Scenario.captured
           Scenario.photo "data:image/png;base64,MASK" "replace with a hat").
  reflexivity.
Defined.

(** X21.  The restoration has two stages and stops at the first that
    fails: when the damage analysis throws, no transformation request is
    sent and the session returns to PREVIEW with the analysis error; when
    the transformation yields no image, PREVIEW with the generation
    error; only when both succeed, RESULT with the one result "Restored
    Photo".  The damage analysis does not touch the analysis annotation
    of the preview. *)
Theorem restore_two_stages remote s img :
  present (capturedImage s) = Some img ->
  let r := run remote 0 (handleRestore s) s in
  analysisText (final r) = analysisText s
  /\ match remote 0 (analysis_request img DAMAGE) with
     | Thrown _ =>
         length (issued (trace r)) = 1
         /\ generatedResults (final r) = [] /\ state (final r) = PREVIEW
         /\ error (final r) = Some "Failed to analyze image. Please try again."
     | Normal a =>
         length (issued (trace r)) = 2
         /\ ((exists url,
                generatedResults (final r) = [ mkResult "Restored Photo" url ]
                /\ state (final r) = RESULT /\ error (final r) = None)
             \/ (generatedResults (final r) = [] /\ state (final r) = PREVIEW
                 /\ error (final r) = Some GENERATION_FAILED))
     end.
Proof.
  intros Himg r. subst r.
  rewrite (handleRestore_run remote s s img Himg). cbv zeta.
  destruct (remote 0 _) as [a | err]; cbn [trace final issued length].
  - destruct (remote 1 _) as [response | err];
      [ destruct (image_of response) as [d |] | ];
      (split; [ reflexivity | split; [ reflexivity | ] ]).
    + left. eexists. repeat split.
    + right. repeat split.
    + right. repeat split.
  - repeat split.
Qed.

Lemma restore_two_stages_witness :
  analysisText (final (run Scenario.first_only 0
                         (handleRestore Scenario.captured) Scenario.captured))
  = analysisText Scenario.captured.
Proof.
  apply (restore_two_stages Scenario.first_only Scenario.captured
           Scenario.photo).
  reflexivity.
Defined.

End SingleItemFacts.

(* ================================================================== *)
(** ** What the views show *)

Module ViewFacts.
Import geminiService App AppView AppFacts JsText.
Local Open Scope nat_scope.

Lemma Era_value_injective (a b : Era) : Era_value a = Era_value b -> a = b.
Proof. destruct a, b; cbn; intros H; try reflexivity; discriminate H. Qed.

Lemma firstn_In_era (l : list Era) :
  forall k x, In x (firstn k l) -> In x l.
Proof.
  induction l as [| a l IH]; intros [| k] x H; cbn in *; try contradiction.
  destruct H as [H | H]; [ left; exact H | right; exact (IH k x H) ].
Qed.

Lemma NoDup_firstn_era (l : list Era) :
  NoDup l -> forall k, NoDup (firstn k l).
Proof.
  induction 1 as [| a l Ha Hl IH]; intros [| k]; cbn; try constructor.
  - intros Hin. apply Ha. exact (firstn_In_era l k a Hin).
  - apply IH.
Qed.

Lemma NoDup_labels (l : list Era) : NoDup l -> NoDup (map Era_value l).
Proof.
  induction 1 as [| a l Ha Hl IH]; cbn; constructor; [ | exact IH ].
  intros Hin. apply in_map_iff in Hin. destruct Hin as (b & Hb & Hin).
  apply Era_value_injective in Hb. subst b. contradiction.
Qed.

(** The labels of the results a batch ends with. *)
Lemma handleStartJourney_labels remote s eras img :
  present (capturedImage s) = Some img ->
  1 <= length eras ->
  exists k,
    map era (generatedResults (dispatch remote (StartJourney eras) s))
    = map Era_value (firstn k eras).
Proof.
  intros Himg Hlen. unfold dispatch. cbn [handler].
  rewrite (handleStartJourney_run remote s eras s img Himg Hlen). cbv zeta.
  cbn [final].
  destruct (k_then_failure_exists remote img s eras 0) as (k & Hk).
  destruct (journey_loop_run remote img s eras k 0 []
              (begin_run PROCESSING s) Hk)
    as (_ & Hz & Hmap & _ & _ & Hfin & _).
  cbv zeta in Hz, Hmap, Hfin.
  set (r := run remote 0 (journey_loop img s eras [])
                (begin_run PROCESSING s)) in *.
  exists k. simpl in Hmap.
  assert (Hg : generatedResults (final r) = fst (value r)).
  { rewrite Hfin. destruct k; [ | reflexivity ].
    rewrite (Hz eq_refl). reflexivity. }
  destruct (snd (value r)); cbn; rewrite Hg; exact Hmap.
Qed.

(** X22.  A batch started from the era cards never shows two results
    with the same label: whatever was clicked and whatever the
    collaborator answered, the labels of the results are pairwise
    different. *)
Theorem batch_labels_distinct remote s img clicks :
  present (capturedImage s) = Some img ->
  EraSelector.selection clicks <> [] ->
  NoDup (map era (generatedResults
                    (dispatch remote
                       (StartJourney (EraSelector.selection clicks)) s))).
Proof.
  intros Himg Hsel.
  assert (Hlen : 1 <= length (EraSelector.selection clicks)).
  { destruct (EraSelector.selection clicks); [ contradiction | cbn; lia ]. }
  destruct (handleStartJourney_labels remote s _ img Himg Hlen) as (k & Hk).
  rewrite Hk. apply NoDup_labels. apply NoDup_firstn_era.
  apply EraSelectorFacts.fold_toggle_NoDup. constructor.
Qed.

Lemma batch_labels_distinct_witness :
  NoDup (map era (generatedResults
                    (dispatch Scenario.always_image
                       (StartJourney
                          (EraSelector.selection
                             [ VIKING; WESTERN; VIKING; CYBERPUNK ]))
                       Scenario.captured))).
Proof.
  apply (batch_labels_distinct Scenario.always_image Scenario.captured
           Scenario.photo [ VIKING; WESTERN; VIKING; CYBERPUNK ]).
  - reflexivity.
  - discriminate.
Defined.

Lemma journey_loop_issued_bound remote img env :
  forall eras n acc s i q snap,
    In (Issued i q snap)
       (trace (run remote n (journey_loop img env eras acc) s)) ->
    i < n + length eras.
Proof.
  induction eras as [| e rest IH]; intros n acc s i q snap Hin.
  - rewrite journey_loop_nil in Hin. destruct Hin.
  - destruct (succeeds_or_fails (remote n (era_request img env e))) as [Hs | Hf].
    + destruct (succeeds_inv _ Hs) as (resp & d & Hr & Hd).
      rewrite (journey_loop_ok _ _ _ _ _ _ _ _ _ _ Hr Hd) in Hin.
      cbv zeta in Hin. cbn [trace] in Hin.
      destruct Hin as [H | [H | Hin]]; [ | discriminate H | ].
      * injection H as <- _ _. cbn. lia.
      * apply IH in Hin. cbn. lia.
    + rewrite (journey_loop_fail _ _ _ _ _ _ _ _ Hf) in Hin.
      cbn [trace] in Hin.
      destruct Hin as [H | [H | []]]; [ | discriminate H ].
      injection H as <- _ _. cbn. lia.
Qed.

(** X23.  While a batch is running the loading screen counts the results
    that have landed: it reads "Initiating Warp Drive..." while the first
    request is out and "Materializing Era i..." while request number
    [i+1] is out, and the phase stays PROCESSING throughout. *)
Theorem batch_progress_line remote s img eras i q snap :
  present (capturedImage s) = Some img ->
  1 <= length eras ->
  In (Issued i q snap) (trace (run remote 0 (handleStartJourney s eras) s)) ->
  state snap = PROCESSING
  /\ length (generatedResults snap) = i
  /\ loadingStatus false snap
     = match i with
       | 0 => "Initiating Warp Drive..."
       | S _ => "Materializing Era " ++ decimal i ++ "..."
       end.
Proof.
  intros Himg Hlen Hin.
  rewrite (handleStartJourney_run remote s eras s img Himg Hlen) in Hin.
  cbv zeta in Hin. cbn [trace] in Hin.
  pose proof (journey_loop_issued_bound remote img s eras 0 [] _ i q snap Hin)
    as Hb.
  apply (journey_loop_snapshots remote img s eras 0 []
           (begin_run PROCESSING s) eq_refl) in Hin.
  destruct Hin as (_ & Hsame & Hmap).
  assert (Hi : length (generatedResults snap) = i).
  { apply (f_equal (@length _)) in Hmap. cbn in Hmap.
    rewrite !length_map, Nat.sub_0_r, firstn_length_le in Hmap by lia.
    exact Hmap. }
  split; [ | split; [ exact Hi | ] ].
  - apply (f_equal state) in Hsame. exact Hsame.
  - unfold loadingStatus. rewrite Hi. destruct i; reflexivity.
Qed.

Lemma batch_progress_line_witness :
  loadingStatus false
    (with_generatedResults
       [ mkResult "Viking Age" "data:image/png;base64,iVBORw0KGgo=" ]
       (begin_run PROCESSING Scenario.captured))
  = "Materializing Era 1...".
Proof.
  apply (batch_progress_line Scenario.always_image Scenario.captured
           Scenario.photo [ VIKING; CYBERPUNK ] 1
           (era_request Scenario.photo Scenario.captured CYBERPUNK)).
  - reflexivity.
  - cbn. lia.
  - cbn. right. right. left. reflexivity.
Defined.

Lemma free_of_app (bad : ascii -> bool) (a b : string) :
  free_of bad (a ++ b) = (free_of bad a && free_of bad b)%bool.
Proof.
  induction a as [| c a IH]; cbn; [ reflexivity | ].
  rewrite IH. apply andb_assoc.
Qed.

Lemma hyphenate_no_whitespace (s : string) :
  forall in_run, free_of isWhiteSpace (hyphenate in_run s) = true.
Proof.
  induction s as [| c s IH]; intros in_run; cbn; [ reflexivity | ].
  destruct (isWhiteSpace c) eqn:E.
  - destruct in_run; [ apply IH | ]. cbn. apply IH.
  - cbn. rewrite E. apply IH.
Qed.

Lemma lowerChar_whitespace (c : ascii) :
  isWhiteSpace (lowerChar c) = isWhiteSpace c.
Proof. destruct c as [[] [] [] [] [] [] [] []]; reflexivity. Qed.

Lemma lowerChar_not_upper (c : ascii) : isUpperAZ (lowerChar c) = false.
Proof. destruct c as [[] [] [] [] [] [] [] []]; reflexivity. Qed.

Lemma toLowerCase_whitespace (s : string) :
  free_of isWhiteSpace (toLowerCase s) = free_of isWhiteSpace s.
Proof.
  induction s as [| c s IH]; cbn; [ reflexivity | ].
  rewrite lowerChar_whitespace, IH. reflexivity.
Qed.

Lemma toLowerCase_no_upper (s : string) :
  free_of isUpperAZ (toLowerCase s) = true.
Proof.
  induction s as [| c s IH]; cbn; [ reflexivity | ].
  rewrite lowerChar_not_upper, IH. reflexivity.
Qed.

(** X24.  The name of a downloaded file never contains whitespace or a
    capital letter A..Z, whatever the label of the result is; without a
    result under the active index, or with an empty label, it is
    "chronolens-image.png". *)
Theorem download_name_is_a_slug (s : Session) :
  free_of isWhiteSpace (downloadName s) = true
  /\ free_of isUpperAZ (downloadName s) = true
  /\ (or_else (option_map era (activeResult s)) EmptyString = EmptyString ->
      downloadName s = "chronolens-image.png").
Proof.
  unfold downloadName.
  set (label := or_else (option_map era (activeResult s)) "image").
  repeat split.
  - rewrite !free_of_app, toLowerCase_whitespace, hyphenate_no_whitespace.
    reflexivity.
  - rewrite !free_of_app, toLowerCase_no_upper. reflexivity.
  - subst label. unfold or_else.
    destruct (option_map era (activeResult s)) as [l |]; [ | reflexivity ].
    destruct (truthy l) eqn:E; [ | reflexivity ].
    intros H. subst l. discriminate E.
Qed.

Lemma download_name_is_a_slug_witness :
  downloadName (initial ImageStyle.REALISTIC Resolution.STANDARD 50)
  = "chronolens-image.png".
Proof.
  apply (download_name_is_a_slug
           (initial ImageStyle.REALISTIC Resolution.STANDARD 50)).
  reflexivity.
Defined.

End ViewFacts.

(* ================================================================== *)
(** ** The mask buffer and the drawing session *)

Module MaskSessionFacts.
Import MaskEditor MaskSession MaskEditorFacts.
Local Open Scope Z_scope.

Lemma by_fours (P : list Z -> Prop) :
  P [] ->
  (forall r, P [ r ]) ->
  (forall r g, P [ r; g ]) ->
  (forall r g b, P [ r; g; b ]) ->
  (forall r g b a rest, P rest -> P (r :: g :: b :: a :: rest)) ->
  forall data, P data.
Proof.
  intros H0 H1 H2 H3 H4.
  assert (H : forall n data, (length data <= n)%nat -> P data).
  { induction n as [| n IH]; intros data Hn.
    - destruct data; [ exact H0 | cbn in Hn; lia ].
    - destruct data as [| r [| g [| b [| a rest]]]]; auto.
      apply H4. apply IH. cbn in Hn. lia. }
  intros data. apply (H (length data)). lia.
Qed.

(** X25.  The threshold loop never changes the size of the buffer, and
    running it on its own output changes nothing, for every buffer, also
    one whose length is not a multiple of four. *)
Theorem binarize_length_idempotent (data : list Z) :
  length (binarize data) = length data
  /\ binarize (binarize data) = binarize data.
Proof.
  induction data as [| r | r g | r g b | r g b a rest [IHl IHi]] using by_fours;
    cbn [binarize].
  - split; reflexivity.
  - destruct (r >? 0) eqn:E; cbn; rewrite ?E; split; reflexivity.
  - destruct (r >? 0) eqn:E; cbn; rewrite ?E; split; reflexivity.
  - destruct (r >? 0) eqn:E; cbn; rewrite ?E; split; reflexivity.
  - destruct (r >? 0) eqn:E; cbn [binarize length].
    + split; [ rewrite IHl; reflexivity | ].
      change (255 >? 0) with true. cbn iota. rewrite IHi. reflexivity.
    + split; [ rewrite IHl; reflexivity | ].
      rewrite E, IHi. reflexivity.
Qed.

Lemma drawImage_shape (quantize : Z -> Z) (src : list Pixel) :
  forall dst,
    Forall opaque dst ->
    length (drawImage quantize src dst) = length dst
    /\ Forall opaque (drawImage quantize src dst).
Proof.
  induction src as [| p src IH]; intros dst Hd; cbn; [ split; [ reflexivity | exact Hd ] | ].
  destruct dst as [| d dst]; [ split; [ reflexivity | constructor ] | ].
  destruct (IH dst (Forall_inv_tail Hd)) as [Hl Ho].
  cbn. split; [ rewrite Hl; reflexivity | ].
  constructor; [ reflexivity | exact Ho ].
Qed.

(** X26.  Whatever is on the visual canvas and however the browser
    rounds, the mask has the size of the canvas, one pixel for each of
    its [width * height] positions, every pixel is fully opaque, and a
    pixel that is not white has no red in it. *)
Theorem mask_opaque_native_size (quantize : Z -> Z) (c : Canvas) :
  width (maskCanvas quantize c) = width c
  /\ height (maskCanvas quantize c) = height c
  /\ length (pixels (maskCanvas quantize c)) = (width c * height c)%nat
  /\ Forall (fun m => alpha m = 255 /\ (m = WHITE \/ red m <= 0))
            (pixels (maskCanvas quantize c)).
Proof.
  unfold maskCanvas, composite, fillBlack. cbn [width height pixels].
  rewrite binarize_pixels.
  destruct (drawImage_shape quantize (pixels c)
              (repeat BLACK (width c * height c)))
    as [Hl Ho].
  { apply Forall_forall. intros x Hx. apply repeat_spec in Hx. subst x.
    reflexivity. }
  repeat split.
  - rewrite length_map, Hl. apply repeat_length.
  - apply Forall_map. eapply Forall_impl; [ | exact Ho ].
    intros p Hp. unfold threshold.
    destruct (Z.gtb_spec (red p) 0); split; auto; right; lia.
Qed.

Section Sessions.
Variable strokeTo : Z -> option PointerEvent -> PointerEvent -> Canvas -> Canvas.
Hypothesis strokeTo_keeps_size : keeps_size strokeTo.

Lemma step_well_kept (w h : nat) (ed : Editor) (x : EditorEvent) :
  well_kept w h ed -> well_kept w h (step strokeTo ed x).
Proof.
  intros (c & Hc & Hw & Hh & Hb).
  destruct x as [e | e | | | v | size]; cbn [step].
  - unfold startDrawing, draw. rewrite Hc.
    destruct (isDrawing ed); cbn.
    + exists (strokeTo (brushSize ed) (path ed) e c).
      destruct (strokeTo_keeps_size (brushSize ed) (path ed) e c) as [Hw' Hh'].
      repeat split; [ congruence | congruence | discriminate ].
    + exists c. rewrite Hc. repeat split; assumption.
  - unfold draw. rewrite Hc.
    destruct (isDrawing ed); [ | exists c; repeat split; assumption ].
    exists (strokeTo (brushSize ed) (path ed) e c).
    destruct (strokeTo_keeps_size (brushSize ed) (path ed) e c) as [Hw' Hh'].
    repeat split; [ congruence | congruence | discriminate ].
  - exists c. repeat split; assumption.
  - destruct (hasDrawn ed) eqn:Ed.
    + unfold handleClear. rewrite Hc. exists (clearRect c).
      repeat split; try assumption.
      intros _. unfold blank, clearRect. cbn. rewrite Hw, Hh. reflexivity.
    + exists c. rewrite Ed. repeat split; assumption.
  - exists c. repeat split; assumption.
  - exists c. repeat split; assumption.
Qed.

Lemma replay_well_kept (w h : nat) (xs : list EditorEvent) :
  forall ed, well_kept w h ed -> well_kept w h (replay strokeTo xs ed).
Proof.
  induction xs as [| x xs IH]; intros ed H; [ exact H | ].
  cbn. apply IH. apply step_well_kept. exact H.
Qed.

Lemma loaded_well_kept (w h : nat) : well_kept w h (loaded w h).
Proof. exists (blank w h). repeat split. Qed.

(** The path is empty whenever the pointer is up. *)
Lemma step_pen_lifted (w h : nat) (ed : Editor) (x : EditorEvent) :
  well_kept w h ed -> pen_lifted ed -> pen_lifted (step strokeTo ed x).
Proof.
  intros (c & Hc & _) Hpl. unfold pen_lifted in *.
  destruct x as [e | e | | | v | size]; cbn [step].
  - unfold startDrawing. cbn. intros H. discriminate H.
  - unfold draw. destruct (isDrawing ed) eqn:E;
      [ | intros _; apply Hpl; reflexivity ].
    rewrite Hc. cbn. intros H. discriminate H.
  - unfold stopDrawing. rewrite Hc. reflexivity.
  - destruct (hasDrawn ed); [ | exact Hpl ].
    unfold handleClear. rewrite Hc. exact Hpl.
  - exact Hpl.
  - exact Hpl.
Qed.

Lemma replay_pen_lifted (w h : nat) (xs : list EditorEvent) :
  forall ed, well_kept w h ed -> pen_lifted ed ->
             pen_lifted (replay strokeTo xs ed).
Proof.
  induction xs as [| x xs IH]; intros ed Hk Hpl; [ exact Hpl | ].
  cbn. apply IH; [ apply step_well_kept | apply (step_pen_lifted w h) ];
    assumption.
Qed.

Lemma clear_step (w h : nat) (ed : Editor) :
  well_kept w h ed ->
  step strokeTo ed ClickClear
  = mkEditor (Some (blank w h)) (isDrawing ed) (brushSize ed) (prompt ed) false
             (path ed).
Proof.
  intros (c & Hc & Hw & Hh & Hb). cbn [step].
  destruct (hasDrawn ed) eqn:Ed.
  - unfold handleClear. rewrite Hc. unfold blank, clearRect. cbn.
    rewrite Hw, Hh. reflexivity.
  - rewrite (Hb eq_refl) in Hc. destruct ed; cbn in *. congruence.
Qed.

Lemma blank_mask (quantize : Z -> Z) (w h : nat) :
  rounds quantize ->
  pixels (maskCanvas quantize (blank w h)) = repeat BLACK (w * h).
Proof.
  intros Hq. rewrite maskCanvas_pixels by apply repeat_length.
  unfold blank, clearRect. cbn [pixels width height].
  rewrite map_repeat. f_equal.
  unfold contribution, source_over, threshold. cbn.
  rewrite (quantize_zero quantize Hq). reflexivity.
Qed.

(** X27.  After a click on Clear, whatever was drawn, typed or set
    before, the canvas is blank at the size of the image, the confirm
    control is dead, and the mask that canvas would give is black
    everywhere. *)
Theorem clear_resets_canvas (quantize : Z -> Z) (xs : list EditorEvent)
    (w h : nat) :
  rounds quantize ->
  let ed := replay strokeTo (xs ++ [ ClickClear ]) (loaded w h) in
  canvas ed = Some (blank w h)
  /\ hasDrawn ed = false
  /\ click_confirm quantize ed = []
  /\ pixels (maskCanvas quantize (blank w h)) = repeat BLACK (w * h).
Proof.
  intros Hq ed. subst ed. unfold replay. rewrite fold_left_app. cbn [fold_left].
  fold (replay strokeTo xs (loaded w h)).
  rewrite (clear_step w h _ (replay_well_kept w h xs _ (loaded_well_kept w h))).
  repeat split. apply blank_mask. exact Hq.
Qed.

(** X28.  Strokes made before a Clear leave no trace on the canvas.  Two
    sessions that differ in what was drawn before the Clear are the same
    session from the Clear on, canvas included, when they agree on the
    brush and the instruction and the pointer is up in both at the Clear;
    with the pointer down in both they are the same when the path of the
    context, which the Clear does not empty, is left at the same point
    in both. *)
Theorem strokes_before_clear_leave_no_trace
    (before1 before2 after : list EditorEvent) (w h : nat) :
  let ed1 := replay strokeTo before1 (loaded w h) in
  let ed2 := replay strokeTo before2 (loaded w h) in
  (isDrawing ed1 = false /\ isDrawing ed2 = false)
  \/ (isDrawing ed1 = isDrawing ed2 /\ path ed1 = path ed2) ->
  brushSize ed1 = brushSize ed2 ->
  prompt ed1 = prompt ed2 ->
  replay strokeTo (before1 ++ ClickClear :: after) (loaded w h)
  = replay strokeTo (before2 ++ ClickClear :: after) (loaded w h).
Proof.
  intros ed1 ed2 Hpen Hb Hp.
  assert (Hd : isDrawing ed1 = isDrawing ed2 /\ path ed1 = path ed2).
  { destruct Hpen as [[H1 H2] | H]; [ | exact H ].
    split; [ congruence | ].
    assert (Hl : forall xs, pen_lifted (replay strokeTo xs (loaded w h))).
    { intros xs. apply (replay_pen_lifted w h);
        [ apply loaded_well_kept | intros _; reflexivity ]. }
    exact (eq_trans (Hl before1 H1) (eq_sym (Hl before2 H2))). }
  destruct Hd as [Hd Hpath].
  unfold replay. rewrite !fold_left_app.
  cbn [fold_left].
  fold (replay strokeTo before1 (loaded w h)).
  fold (replay strokeTo before2 (loaded w h)).
  rewrite (clear_step w h _ (replay_well_kept w h before1 _ (loaded_well_kept w h))).
  rewrite (clear_step w h _ (replay_well_kept w h before2 _ (loaded_well_kept w h))).
  fold ed1. fold ed2. rewrite Hd, Hb, Hp, Hpath. reflexivity.
Qed.

End Sessions.

Lemma dab_keeps_size : keeps_size dab.
Proof. intros b from e c. destruct from; split; reflexivity. Qed.

Lemma clear_resets_canvas_witness :
  canvas (replay dab
            [ PointerDown (mkPointer 3 4); PointerMove (mkPointer 5 6);
              PointerUp; ClickClear ] (loaded 2 2))
  = Some (blank 2 2).
Proof.
  apply (clear_resets_canvas dab dab_keeps_size nearest
           [ PointerDown (mkPointer 3 4); PointerMove (mkPointer 5 6);
             PointerUp ] 2 2 nearest_rounds).
Defined.

Lemma strokes_before_clear_leave_no_trace_witness :
  replay dab
    ([ PointerDown (mkPointer 3 4); PointerMove (mkPointer 5 6);
       PointerMove (mkPointer 6 7); PointerUp ]
       ++ ClickClear :: [ PointerDown (mkPointer 1 1);
                          PointerMove (mkPointer 1 2);
                          PointerMove (mkPointer 2 2); PointerUp ])
    (loaded 2 2)
  = replay dab
      ([] ++ ClickClear :: [ PointerDown (mkPointer 1 1);
                             PointerMove (mkPointer 1 2);
                             PointerMove (mkPointer 2 2); PointerUp ])
      (loaded 2 2).
Proof.
  apply (strokes_before_clear_leave_no_trace dab dab_keeps_size
           [ PointerDown (mkPointer 3 4); PointerMove (mkPointer 5 6);
             PointerMove (mkPointer 6 7); PointerUp ] []
           [ PointerDown (mkPointer 1 1); PointerMove (mkPointer 1 2);
             PointerMove (mkPointer 2 2); PointerUp ] 2 2);
    [ left; split; reflexivity | reflexivity | reflexivity ].
Defined.

(** With the pointer down at the Clear the path does matter: the session
    that had moved strokes a segment from where it was, the session that
    had only pressed starts a new path, and the canvases differ. *)
Lemma path_outlives_clear :
  let moved := [ PointerDown (mkPointer 3 4); PointerMove (mkPointer 5 6) ] in
  let pressed := [ PointerDown (mkPointer 3 4) ] in
  let after := [ PointerMove (mkPointer 1 2) ] in
  isDrawing (replay dab moved (loaded 2 2))
  = isDrawing (replay dab pressed (loaded 2 2))
  /\ path (replay dab moved (loaded 2 2)) = Some (mkPointer 5 6)
  /\ path (replay dab pressed (loaded 2 2)) = None
  /\ canvas (replay dab (moved ++ ClickClear :: after) (loaded 2 2))
     <> canvas (replay dab (pressed ++ ClickClear :: after) (loaded 2 2)).
Proof.
  cbv zeta. repeat split. cbn. intros H. discriminate H.
Qed.

End MaskSessionFacts.
